(** * PickingTrainer: the business logic of the picking trainer

    A shallow embedding of [picking-trainer-logic.js] and the properties of
    its functions.

    Conventions of the embedding.
    - A JavaScript number is an integer ([Z]): scores, counts, stocks and
      quantities are integers in the data the trainer stores.  [NaN] and
      fractions are outside the model.  A number is a double: where the
      code computes a difference, the model rounds it as a double does
      ([round_double]); integers up to 2^53 are exact.
    - A property that may be missing, [undefined] or [null] has type
      [maybe A]; a missing property reads as [undefined].
    - The fields of an object that the functions never read are kept in a
      finite map from property names to values ([rest_h], [rest_p]).
    - [Math.random()] is drawn from an explicit stream of samples of [0, 1).
    - An object used as a dictionary is a [gmap] of its own keys, read and
      written through the members it inherits from [Object.prototype]
      ([Object_prototype], [assign]); a [Set] is a [gset]. *)

From Stdlib Require Import ZArith List Lia.
From stdpp Require Import base gmap sets list strings pretty.

Local Open Scope Z_scope.

(** ** JavaScript values *)

(** A property read: [Undefined] (also a missing property), [Null], or a
    value. *)
Inductive maybe (A : Type) : Type :=
  | Undefined
  | Null
  | Just (a : A).
Arguments Undefined {A}.
Arguments Null {A}.
Arguments Just {A} a.

(** Values of the properties that are only carried along. *)
Inductive value : Type :=
  | VNull
  | VBool (b : bool)
  | VNum (n : Z)
  | VStr (s : string).

(** [x ?? d] *)
Definition nullish {A} (x : maybe A) (d : A) : A :=
  match x with
  | Just a => a
  | _ => d
  end.

(** [ToBoolean] on a string property and on a number property. *)
Definition truthy_str (x : maybe string) : bool :=
  match x with
  | Just s => negb (String.eqb s "")
  | _ => false
  end.

Definition truthy_num (x : maybe Z) : bool :=
  match x with
  | Just n => negb (n =? 0)
  | _ => false
  end.

(** [x || d] on a string property. *)
Definition or_str (x : maybe string) (d : string) : maybe string :=
  if truthy_str x then x else Just d.

(** [x === y] on properties whose values are compared by [eqb]. *)
Definition strict_eq {A} (eqb : A → A → bool) (x y : maybe A) : bool :=
  match x, y with
  | Undefined, Undefined => true
  | Null, Null => true
  | Just a, Just b => eqb a b
  | _, _ => false
  end.

(** A number that [Math.max] can return: with no argument it is
    [-Infinity]. *)
Inductive number : Type :=
  | NegInfinity
  | Num (n : Z).

(** The greater of a number and an integer. *)
Definition max_number (acc : number) (x : Z) : number :=
  match acc with
  | NegInfinity => Num x
  | Num m => Num (Z.max m x)
  end.

(** [Math.max(...xs)] *)
Definition Math_max (xs : list Z) : number :=
  fold_left max_number xs NegInfinity.

(** [l.slice(start)]: a negative [start] counts from the end. *)
Definition slice {A} (start : Z) (l : list A) : list A :=
  let len := Z.of_nat (length l) in
  let k := if start <? 0 then Z.max (len + start) 0 else Z.min start len in
  drop (Z.to_nat k) l.

(** ** History *)

Record HistoryEntry : Type := mkEntry {
  userId : string;
  mode : maybe string;
  score : Z;
  totalAnswered : Z;
  timeLimit : maybe Z;
  rest_h : gmap string value
}.

(** The [options] argument of [getBestScore]. *)
Record Options : Type := mkOptions {
  opt_timeLimit : maybe Z
}.

(** [options && options.timeLimit], as a condition. *)
Definition has_timeLimit (options : maybe Options) : bool :=
  match options with
  | Just o => truthy_num (opt_timeLimit o)
  | _ => false
  end.

(** [options.timeLimit], read where [options] is an object. *)
Definition options_timeLimit (options : maybe Options) : maybe Z :=
  match options with
  | Just o => opt_timeLimit o
  | _ => Undefined
  end.

(** The result is [None] for [null]. *)
Definition getBestScore (history : list HistoryEntry) (uid : string)
    (m : string) (options : maybe Options) : option number :=
  let filtered :=
    List.filter (λ h, String.eqb (userId h) uid
                      && strict_eq String.eqb (mode h) (Just m)) history in
  if String.eqb m "timeAttack" && has_timeLimit options then
    let filtered :=
      List.filter (λ h, strict_eq Z.eqb (timeLimit h)
                                  (options_timeLimit options)) filtered in
    if (length filtered =? 0)%nat then None
    else Some (Math_max (map totalAnswered filtered))
  else
    if (length filtered =? 0)%nat then None
    else Some (Math_max (map score filtered)).

(** [{...h, mode: h.mode || 'normal'}] *)
Definition migrateEntry (h : HistoryEntry) : HistoryEntry :=
  {| userId := userId h;
     mode := or_str (mode h) "normal";
     score := score h;
     totalAnswered := totalAnswered h;
     timeLimit := timeLimit h;
     rest_h := rest_h h |}.

Definition migrateHistory (history : list HistoryEntry) : list HistoryEntry :=
  map migrateEntry history.

Definition trimHistory (history : list HistoryEntry) : list HistoryEntry :=
  if (length history <=? 500)%nat then history
  else slice (-500) history.

(** ** Products *)

Record Product : Type := mkProduct {
  code : string;
  stock : maybe Z;
  rest_p : gmap string value
}.

(** [{...p, stock: p.stock ?? 99}] *)
Definition migrateProduct (p : Product) : Product :=
  {| code := code p;
     stock := Just (nullish (stock p) 99);
     rest_p := rest_p p |}.

Definition migrateProducts (products : list Product) : list Product :=
  map migrateProduct products.

(** ** The random source *)

(** A result of [Math.random()]: the number [numer / (numer + gap + 1)],
    so every sample lies in [0, 1) and every rational of [0, 1) is a
    sample. *)
Record sample : Type := mkSample {
  numer : nat;
  gap : nat
}.

(** The results of the calls of [Math.random()] still to come. *)
Definition Rng : Type := nat → sample.

(** Computations that draw from the random source. *)
Definition Rand (A : Type) : Type := Rng → A * Rng.

Definition ret {A} (a : A) : Rand A := λ g, (a, g).

Definition bind {A B} (m : Rand A) (k : A → Rand B) : Rand B :=
  λ g, let (a, g') := m g in k a g'.

Notation "'let*' x ':=' m 'in' k" := (bind m (λ x, k))
  (at level 10, x pattern, m at level 200, k at level 200).

Definition Math_random : Rand sample :=
  λ g, (g 0%nat, λ k, g (S k)).

(** [Math.floor(u * n)] for a sample [u]. *)
Definition floor_mul (u : sample) (n : nat) : nat :=
  (numer u * n / (numer u + gap u + 1))%nat.

(** [Math.floor(Math.random() * n)] *)
Definition random_below (n : nat) : Rand nat :=
  let* u := Math_random in ret (floor_mul u n).

(** [for (let i = start; i < start + n; i++) s = body(i, s)] *)
Fixpoint for_loop {St} (n : nat) (i : nat) (body : nat → St → Rand St)
    (s : St) : Rand St :=
  match n with
  | O => ret s
  | S n' => let* s' := body i s in for_loop n' (S i) body s'
  end.

(** ** Task generation *)

Record Task : Type := mkTask {
  product : Product;
  quantity : Z;
  completed : bool;
  found : maybe bool
}.

(** [(p.stock ?? 99) > 0] *)
Definition in_stock (p : Product) : bool := 0 <? nullish (stock p) 99.

(** The result is [None] for [null].  [available[i]] is read with the head
    of [available] as the value out of range; [i] is always in range
    ([random_below_lt]). *)
Definition generateRandomTask (products : list Product) : Rand (option Task) :=
  let available := List.filter in_stock products in
  match available with
  | [] => ret None
  | p0 :: _ =>
      let* i := random_below (length available) in
      let product := nth i available p0 in
      let stock := nullish (stock product) 99 in
      let* r := random_below 3 in
      let quantity := Z.min (Z.of_nat r + 1) stock in
      ret (Some {| product := product;
                   quantity := quantity;
                   completed := false;
                   found := Null |})
  end.

Definition generateRandomTasks (products : list Product) (count : nat)
    : Rand (list Task) :=
  for_loop count 0
    (λ _ tasks,
       let* task := generateRandomTask products in
       match task with
       | Some t => ret (tasks ++ [t])
       | None => ret tasks
       end)
    [].

(** ** Slip generation *)

(** The ledger is a plain object.  Besides its own keys, which hold
    numbers, it answers to the names that it inherits from
    [Object.prototype]: eleven functions and the accessor [__proto__]. *)
Definition Object_prototype : list string :=
  ["constructor"; "__defineGetter__"; "__defineSetter__"; "hasOwnProperty";
   "__lookupGetter__"; "__lookupSetter__"; "isPrototypeOf";
   "propertyIsEnumerable"; "toString"; "valueOf"; "__proto__";
   "toLocaleString"].

Definition inherited (k : string) : bool :=
  bool_decide (k ∈ Object_prototype).

(** [remainingStock[p.code] ?? (p.stock ?? 99)].  A key of its own gives the
    ledger's number.  Without one, an inherited name gives a function or an
    object, which is not nullish and is not a number ([None]: the comparison
    [> 0] reads it as [NaN]); any other name gives [undefined], and the
    product's stock is taken. *)
Definition remaining (remainingStock : gmap string Z) (p : Product)
    : option Z :=
  match remainingStock !! code p with
  | Some n => Some n
  | None =>
      if inherited (code p) then None else Some (nullish (stock p) 99)
  end.

(** [x > 0] *)
Definition above_zero (x : option Z) : bool :=
  match x with
  | Some n => 0 <? n
  | None => false
  end.

(** [remainingStock[k] = v].  An assignment to [__proto__] goes to the
    setter that the ledger inherits, which ignores a number, unless the
    ledger has a key [__proto__] of its own; any other assignment makes or
    updates an own key. *)
Definition assign (remainingStock : gmap string Z) (k : string) (v : Z)
    : gmap string Z :=
  match remainingStock !! k with
  | Some _ => <[k := v]> remainingStock
  | None =>
      if String.eqb k "__proto__" then remainingStock
      else <[k := v]> remainingStock
  end.

(** The double nearest to the integer [x], a tie going to the even
    significand: the result of an addition or subtraction of doubles whose
    exact value is [x] (below 2^1024).  Up to 2^53 every integer is a
    double. *)
Definition round_double (x : Z) : Z :=
  if Z.abs x <=? 2 ^ 53 then x
  else
    let e := Z.log2 (Z.abs x) - 52 in
    let q := Z.abs x / 2 ^ e in
    let r := Z.abs x mod 2 ^ e in
    let half := 2 ^ (e - 1) in
    let q' := if r <? half then q
              else if half <? r then q + 1
              else if Z.even q then q else q + 1 in
    Z.sgn x * (q' * 2 ^ e).

(** The ledger [remainingStock] is updated in place by the source; here
    the updated ledger is returned with the task.  The stock of the chosen
    product is read again; the product passed the first filter, so the
    value is a number ([available_number]), and the 0 that stands for a
    value that is not a number is never used. *)
Definition generateTaskWithStock (products : list Product)
    (remainingStock : gmap string Z) (usedCodes : option (gset string))
    : Rand (option Task * gmap string Z) :=
  let available :=
    List.filter (λ p, above_zero (remaining remainingStock p)) products in
  let available :=
    match usedCodes with
    | Some used =>
        List.filter (λ p, negb (bool_decide (code p ∈ used))) available
    | None => available
    end in
  match available with
  | [] => ret (None, remainingStock)
  | p0 :: _ =>
      let* i := random_below (length available) in
      let product := nth i available p0 in
      let stock := default 0 (remaining remainingStock product) in
      let* r := random_below 3 in
      let quantity := Z.min (Z.of_nat r + 1) stock in
      ret (Some {| product := product;
                   quantity := quantity;
                   completed := false;
                   found := Null |},
           assign remainingStock (code product)
             (round_double (stock - quantity)))
  end.

Record Slip : Type := mkSlip {
  slipId : string;
  slipNumber : Z;
  tasks : list Task;
  slip_completed : bool
}.

(** [products.forEach(p => { remainingStock[p.code] = p.stock ?? 99 })]
    on the empty ledger. *)
Definition initial_stock (products : list Product) : gmap string Z :=
  fold_left (λ rs p, assign rs (code p) (nullish (stock p) 99)) products ∅.

(** The state of the inner loop of [generateSlips]. *)
Record SlipState : Type := mkSlipState {
  st_tasks : list Task;
  st_usedCodes : gset string;
  st_stock : gmap string Z
}.

(** One pass of the inner loop. *)
Definition slip_item (products : list Product) (st : SlipState)
    : Rand SlipState :=
  let* r := generateTaskWithStock products (st_stock st)
              (Some (st_usedCodes st)) in
  match fst r with
  | Some task =>
      ret {| st_tasks := st_tasks st ++ [task];
             st_usedCodes := {[code (product task)]} ∪ st_usedCodes st;
             st_stock := snd r |}
  | None =>
      ret {| st_tasks := st_tasks st;
             st_usedCodes := st_usedCodes st;
             st_stock := snd r |}
  end.

(** One pass of the outer loop: slip [i]. *)
Definition slip_body (products : list Product) (itemsPerSlip : nat)
    (i : nat) (acc : list Slip * gmap string Z)
    : Rand (list Slip * gmap string Z) :=
  let* st := for_loop itemsPerSlip 0 (λ _, slip_item products)
               {| st_tasks := []; st_usedCodes := ∅; st_stock := snd acc |} in
  ret (fst acc ++ [{| slipId := "slip-" +:+ pretty i;
                      slipNumber := Z.of_nat i + 1;
                      tasks := st_tasks st;
                      slip_completed := false |}],
       st_stock st).

(** [generateSlips] with the ledger it leaves behind. *)
Definition generateSlips_ledger (products : list Product)
    (slipCount itemsPerSlip : nat) : Rand (list Slip * gmap string Z) :=
  let remainingStock := initial_stock products in
  for_loop slipCount 0 (slip_body products itemsPerSlip) ([], remainingStock).

Definition generateSlips (products : list Product)
    (slipCount itemsPerSlip : nat) : Rand (list Slip) :=
  let* r := generateSlips_ledger products slipCount itemsPerSlip in
  ret (fst r).

(** ** escapeHtml *)

(** A JavaScript string is its sequence of UTF-16 code units; [units]
    gives the units of an ASCII literal. *)
Definition units (s : string) : list N :=
  map Ascii.N_of_ascii (String.list_ascii_of_string s).

(** Modelled from the HTML Standard: [document] belongs to the browser, and
    [escapeHtml] only ever gives the element a text child.  An element is
    its tag name and the data of its text children. *)
Record Element : Type := mkElement {
  tagName : string;
  childNodes : list (list N)
}.

(** [document.createElement(name)] *)
Definition createElement (name : string) : Element :=
  {| tagName := name; childNodes := [] |}.

(** [el.textContent = str]: the children are replaced by one text node
    holding [str], or by nothing when [str] is empty. *)
Definition set_textContent (el : Element) (str : list N) : Element :=
  {| tagName := tagName el;
     childNodes := match str with [] => [] | _ :: _ => [str] end |}.

(** The Standard's escaping of text outside attributes: [&], U+00A0, [<]
    and [>] are replaced, every other unit is kept. *)
Definition escape_unit (c : N) : list N :=
  if (c =? 38)%N then units "&amp;"
  else if (c =? 160)%N then units "&nbsp;"
  else if (c =? 60)%N then units "&lt;"
  else if (c =? 62)%N then units "&gt;"
  else [c].

Definition escape_string (s : list N) : list N := flat_map escape_unit s.

(** The elements whose text children are serialised as they are
    ([noscript] is one of them where scripts run). *)
Definition raw_text (name : string) : bool :=
  existsb (String.eqb name)
    ["style"; "script"; "xmp"; "iframe"; "noembed"; "noframes"; "plaintext";
     "noscript"].

(** [el.innerHTML]: the serialisation of the children. *)
Definition innerHTML (el : Element) : list N :=
  flat_map (λ data, if raw_text (tagName el) then data else escape_string data)
    (childNodes el).

Definition escapeHtml (str : list N) : list N :=
  let div := createElement "div" in
  let div := set_textContent div str in
  innerHTML div.

(** Reading markup back as text, for the four character references that
    [escape_unit] writes: a reference is replaced by its character.  The
    markup is read from its end, [acc] being the text of what follows. *)
Fixpoint starts_with (p s : list N) : bool :=
  match p, s with
  | [], _ => true
  | a :: p', b :: s' => (a =? b)%N && starts_with p' s'
  | _ :: _, [] => false
  end.

Definition unescape_step (c : N) (acc : list N) : list N :=
  if (c =? 38)%N then
    if starts_with (units "amp;") acc then 38%N :: drop 4 acc
    else if starts_with (units "nbsp;") acc then 160%N :: drop 5 acc
    else if starts_with (units "lt;") acc then 60%N :: drop 3 acc
    else if starts_with (units "gt;") acc then 62%N :: drop 3 acc
    else c :: acc
  else c :: acc.

Definition unescape (s : list N) : list N := foldr unescape_step [] s.

(** ** Notions used to state the properties *)

(** A product's effective stock: its [stock] field, or 99. *)
Definition effective_stock (p : Product) : Z := nullish (stock p) 99.

(** The last [k] elements of [l], in the order of [l]. *)
Definition last_elements {A} (k : nat) (l : list A) : list A :=
  rev (take k (rev l)).

(** [r] is the best value of the field [f] among the entries of [history]
    that satisfy [P]: [null] when there is none, and otherwise a value that
    one of them has and none of them exceeds. *)
Definition best_of (P : HistoryEntry → Prop) (f : HistoryEntry → Z)
    (history : list HistoryEntry) (r : option number) : Prop :=
  match r with
  | None => ∀ h, h ∈ history → ¬ P h
  | Some NegInfinity => False
  | Some (Num v) =>
      (∃ h, h ∈ history ∧ P h ∧ f h = v) ∧
      (∀ h, h ∈ history → P h → f h ≤ v)
  end.

(** The entries of user [uid] in mode [m]. *)
Definition matching (uid m : string) (h : HistoryEntry) : Prop :=
  userId h = uid ∧ mode h = Just m.

(** The quantity of the product code [c] that the tasks [ts] ask for. *)
Definition allocated (c : string) (ts : list Task) : Z :=
  foldr Z.add 0
    (map quantity (List.filter (λ t, String.eqb (code (product t)) c) ts)).

(** The tasks of all slips, in order (as [getSlipsSummary] collects them). *)
Definition all_tasks (slips : list Slip) : list Task := flat_map tasks slips.

(** The product codes of the tasks [ts]. *)
Definition task_codes (ts : list Task) : list string :=
  map (λ t, code (product t)) ts.

(** A random source that always returns 0. *)
Definition zeros : Rng := λ _, {| numer := 0; gap := 0 |}.

(** A history entry of user [uid] with the given mode, score, number of
    answers and time limit. *)
Definition entry (uid : string) (m : maybe string) (s a : Z)
    (t : maybe Z) : HistoryEntry :=
  {| userId := uid; mode := m; score := s; totalAnswered := a;
     timeLimit := t; rest_h := ∅ |}.

(** The ledger of [generateSlips] at a point of the generation: after [k]
    slips and [j] further calls of [generateTaskWithStock] for the next
    slip. *)
Definition ledger_after (products : list Product) (itemsPerSlip k j : nat)
    (g : Rng) : gmap string Z :=
  let (acc, g') := for_loop k 0 (slip_body products itemsPerSlip)
                     ([], initial_stock products) g in
  st_stock (fst (for_loop j 0 (λ _, slip_item products)
                   {| st_tasks := []; st_usedCodes := ∅;
                      st_stock := snd acc |} g')).

(** Invariants of the loops of [generateSlips]. *)

(** The tasks of the slip under construction have distinct codes, all
    recorded in [usedCodes]. *)
Definition codes_distinct (st : SlipState) : Prop :=
  NoDup (task_codes (st_tasks st))
  ∧ ∀ c, c ∈ task_codes (st_tasks st) → c ∈ st_usedCodes st.

(** The quote characters: the double quote (34) and the single quote
    (39). *)
Definition is_quote (c : N) : bool := ((c =? 34) || (c =? 39))%N.

(** Whether [options] is an object whose [timeLimit] is the number [t]. *)
Definition given_timeLimit (options : maybe Options) (t : Z) : Prop :=
  ∃ o, options = Just o ∧ opt_timeLimit o = Just t.

(** ** Slip aggregation *)

(** [slips] may be [null] or [undefined]; [!slips] holds of these only, an
    array being truthy even when empty. *)
Definition isAllSlipsCompleted (slips : maybe (list Slip)) : bool :=
  match slips with
  | Just slips =>
      if (length slips =? 0)%nat then false
      else forallb slip_completed slips
  | _ => false
  end.

Record Summary : Type := mkSummary {
  totalTasks : nat;
  completedTasks : nat;
  correctCount : nat;
  allTasks : list Task
}.

Definition getSlipsSummary (slips : list Slip) : Summary :=
  let allTasks := flat_map tasks slips in
  {| totalTasks := length allTasks;
     completedTasks := length (List.filter completed allTasks);
     correctCount :=
       length (List.filter
                 (λ t, strict_eq Bool.eqb (found t) (Just true)) allTasks);
     allTasks := allTasks |}.

(** ** Formatting *)

(** An integer of at most 2^53 - 1 in absolute value
    ([Number.isSafeInteger]).  On these the arithmetic of [formatDuration]
    is that of the integers: the quotients by 1000 and by 60, rounded to
    doubles, have the floor of the exact quotients, a remainder is exact,
    and a number below 10^21 is written in decimal. *)
Record SafeInteger : Type := mkSafeInteger {
  integer : Z;
  integer_safe : (Z.abs integer <=? 2 ^ 53 - 1) = true
}.

(** A template literal writes an integer in decimal ([pretty]); the text is
    kept as its UTF-8 bytes.  [Math.floor] of a quotient is [Z.div], and
    [%] is the remainder with the sign of the dividend ([Z.rem]). *)
Definition formatDuration (ms : SafeInteger) : string :=
  let seconds := integer ms / 1000 in
  let minutes := seconds / 60 in
  let remainingSeconds := Z.rem seconds 60 in
  if 0 <? minutes then
    pretty minutes +:+ "分" +:+ pretty remainingSeconds +:+ "秒"
  else
    pretty seconds +:+ "秒".

(** ** Further notions used to state the properties *)

(** The greater of two numbers that [Math.max] can return. *)
Definition number_max (a b : number) : number :=
  match a, b with
  | NegInfinity, _ => b
  | _, NegInfinity => a
  | Num x, Num y => Num (Z.max x y)
  end.

(** The better of two results of [getBestScore]. *)
Definition best_join (a b : option number) : option number :=
  match a, b with
  | None, _ => b
  | _, None => a
  | Some x, Some y => Some (number_max x y)
  end.

(** A task and a slip over the migrated products. *)
Definition migrateTask (t : Task) : Task :=
  {| product := migrateProduct (product t);
     quantity := quantity t;
     completed := completed t;
     found := found t |}.

Definition migrateSlip (slip : Slip) : Slip :=
  {| slipId := slipId slip;
     slipNumber := slipNumber slip;
     tasks := map migrateTask (tasks slip);
     slip_completed := slip_completed slip |}.

(** The state of a slip's loop, and the slips with the ledger, over the
    migrated products. *)
Definition migrateState (st : SlipState) : SlipState :=
  {| st_tasks := map migrateTask (st_tasks st);
     st_usedCodes := st_usedCodes st;
     st_stock := st_stock st |}.

Definition migrateSlips (acc : list Slip * gmap string Z)
    : list Slip * gmap string Z :=
  (map migrateSlip (fst acc), snd acc).

(** The products that [generateTaskWithStock] can pick: those for which
    the ledger, or else the product, gives a number above 0, and whose code
    is not in [usedCodes]. *)
Definition candidate (remainingStock : gmap string Z)
    (usedCodes : option (gset string)) (p : Product) : Prop :=
  (∃ n, remaining remainingStock p = Some n ∧ 0 < n)
  ∧ ∀ used, usedCodes = Some used → code p ∉ used.

(** The list [available] of [generateTaskWithStock]. *)
Definition candidates (products : list Product)
    (remainingStock : gmap string Z) (usedCodes : option (gset string))
    : list Product :=
  let available :=
    List.filter (λ p, above_zero (remaining remainingStock p)) products in
  match usedCodes with
  | Some used =>
      List.filter (λ p, negb (bool_decide (code p ∈ used))) available
  | None => available
  end.

(** A task as the generators make it: for a product of the list, with a
    quantity from 1 to 3, neither completed nor found. *)
Definition fresh_task (products : list Product) (t : Task) : Prop :=
  product t ∈ products ∧ 1 ≤ quantity t ≤ 3
  ∧ completed t = false ∧ found t = Null.

(** The tasks of [ts] that ask for the product code [c]. *)
Definition tasks_for (c : string) (ts : list Task) : list Task :=
  List.filter (λ t, String.eqb (code (product t)) c) ts.

(** The ledger and the tasks [ts] generated so far.  The ledger has no key
    [__proto__].  At the code of a product whose effective stock is at most
    2^53 it holds that stock less the quantity allocated to the code; at the
    code of a product whose stock is not negative it is not negative.  Each
    task was made for a product of the list that had stock, with a quantity
    from 1 to 3. *)
Definition stock_accounted (products : list Product) (ts : list Task)
    (ledger : gmap string Z) : Prop :=
  ledger !! "__proto__" = None
  ∧ (∀ p, In p products → code p ≠ "__proto__" →
       effective_stock p ≤ 2 ^ 53 →
       ledger !! code p = Some (effective_stock p - allocated (code p) ts))
  ∧ (∀ p, In p products → 0 ≤ effective_stock p →
       ∀ n, ledger !! code p = Some n → 0 ≤ n)
  ∧ Forall (λ t, In (product t) products ∧ 1 ≤ quantity t ≤ 3
                 ∧ 0 < effective_stock (product t)
                 ∧ code (product t) ≠ "__proto__") ts.

(** The slip at index [j] of a run of [generateSlips]: its identifier and
    number follow from [j], it is not completed, and it has at most
    [itemsPerSlip] tasks. *)
Definition slip_shape (itemsPerSlip j : nat) (slip : Slip) : Prop :=
  slipId slip = "slip-" +:+ pretty j
  ∧ slipNumber slip = Z.of_nat j + 1
  ∧ slip_completed slip = false
  ∧ (length (tasks slip) ≤ itemsPerSlip)%nat.

(** Whether [c] is one of the four units that [escape_unit] replaces. *)
Definition is_special (c : N) : bool :=
  ((c =? 38) || (c =? 160) || (c =? 60) || (c =? 62))%N.

(** * Properties *)

(** ** getBestScore *)

Lemma Math_max_from (xs : list Z) (m : Z) :
  ∃ v, fold_left max_number xs (Num m) = Num v
       ∧ (v = m ∨ In v xs) ∧ m ≤ v ∧ ∀ x, In x xs → x ≤ v.
Proof.
  revert m. induction xs as [|x xs IH]; intros m; simpl.
  - exists m. split; [reflexivity|]. split; [now left|]. split; [lia|tauto].
  - destruct (IH (Z.max m x)) as (v & Hv & Hin & Hle & Hall).
    exists v. split; [exact Hv|]. split; [|split].
    + destruct Hin as [->|Hin]; [|now right; right].
      destruct (Z.max_spec m x) as [[_ ->]|[_ ->]]; [right; now left|now left].
    + lia.
    + intros y [<-|Hy]; [lia|auto].
Qed.

Lemma Math_max_cons (x : Z) (xs : list Z) :
  ∃ v, Math_max (x :: xs) = Num v
       ∧ In v (x :: xs) ∧ ∀ y, In y (x :: xs) → y ≤ v.
Proof.
  unfold Math_max. simpl.
  destruct (Math_max_from xs x) as (v & Hv & Hin & Hle & Hall).
  exists v. split; [exact Hv|]. split.
  - destruct Hin as [->|Hin]; [now left|now right].
  - intros y [<-|Hy]; [lia|auto].
Qed.

Lemma best_of_list (P : HistoryEntry → Prop) (f : HistoryEntry → Z)
    (history l : list HistoryEntry) :
  (∀ h, In h l ↔ In h history ∧ P h) →
  best_of P f history
    (if (length l =? 0)%nat then None else Some (Math_max (map f l))).
Proof.
  intros Hl. destruct l as [|a l]; simpl.
  - intros h Hh HP. apply list_elem_of_In in Hh.
    destruct (proj2 (Hl h) (conj Hh HP)).
  - destruct (Math_max_cons (f a) (map f l)) as (v & -> & Hin & Hmax).
    simpl. split.
    + change (f a :: map f l) with (map f (a :: l)) in Hin.
      apply in_map_iff in Hin as (h & Hfh & Hh).
      apply Hl in Hh as [Hh HP]. exists h.
      split; [now apply list_elem_of_In|]. split; assumption.
    + intros h Hh HP. apply list_elem_of_In in Hh.
      apply Hmax. change (f a :: map f l) with (map f (a :: l)).
      apply in_map, Hl. split; assumption.
Qed.

Lemma strict_eq_string (x : maybe string) (s : string) :
  strict_eq String.eqb x (Just s) = true ↔ x = Just s.
Proof.
  destruct x as [| |a]; simpl; try (split; discriminate).
  rewrite String.eqb_eq. split; congruence.
Qed.

Lemma strict_eq_Z (x : maybe Z) (t : Z) :
  strict_eq Z.eqb x (Just t) = true ↔ x = Just t.
Proof.
  destruct x as [| |a]; simpl; try (split; discriminate).
  rewrite Z.eqb_eq. split; congruence.
Qed.

Lemma matching_filter (uid m : string) (h : HistoryEntry) :
  String.eqb (userId h) uid && strict_eq String.eqb (mode h) (Just m) = true
  ↔ matching uid m h.
Proof.
  unfold matching.
  rewrite andb_true_iff, String.eqb_eq, strict_eq_string. reflexivity.
Qed.

Lemma has_timeLimit_true (options : maybe Options) :
  has_timeLimit options = true ↔ ∃ t, given_timeLimit options t ∧ t ≠ 0.
Proof.
  unfold has_timeLimit, given_timeLimit. split.
  - destruct options as [| |o]; try discriminate.
    destruct (opt_timeLimit o) as [| |t] eqn:Ho; simpl; try discriminate.
    intros Ht. exists t. split; [exists o; split; [reflexivity|exact Ho]|].
    intros ->. discriminate.
  - intros (t & (o & -> & Ho) & Ht). rewrite Ho. simpl.
    apply negb_true_iff, Z.eqb_neq, Ht.
Qed.

(** C4, as the code has it: when [mode] is "timeAttack" and
    [options.timeLimit] is given and is not 0, [getBestScore] is [null] if no
    entry matches the user, the mode and that [timeLimit], and otherwise the
    greatest [totalAnswered] among the entries that do; in every other case
    (a [timeLimit] of 0 included) it is [null] if no entry matches the user
    and the mode, and otherwise the greatest [score] among those that do. *)
Theorem getBestScore_best (history : list HistoryEntry) (uid m : string)
    (options : maybe Options) :
  (∀ t, m = "timeAttack" → given_timeLimit options t → t ≠ 0 →
     best_of (λ h, matching uid m h ∧ timeLimit h = Just t) totalAnswered
       history (getBestScore history uid m options))
  ∧ ((m ≠ "timeAttack" ∨ ∀ t, given_timeLimit options t → t = 0) →
     best_of (matching uid m) score history
       (getBestScore history uid m options)).
Proof.
  unfold getBestScore. split.
  - intros t -> Hgiven Ht.
    assert (Hhas : has_timeLimit options = true)
      by (apply has_timeLimit_true; eauto).
    rewrite Hhas. simpl.
    destruct Hgiven as (o & -> & Ho). simpl. rewrite Ho.
    apply best_of_list. intros h.
    rewrite !filter_In, matching_filter, strict_eq_Z. tauto.
  - intros Hother.
    assert (Hcond : String.eqb m "timeAttack" && has_timeLimit options = false).
    { apply andb_false_iff.
      destruct Hother as [Hm|Hzero]; [left; now apply String.eqb_neq|].
      right. apply not_true_is_false. intros Hhas.
      apply has_timeLimit_true in Hhas as (t & Hgiven & Ht). auto. }
    rewrite Hcond.
    apply best_of_list. intros h. rewrite filter_In, matching_filter. tauto.
Qed.

(** C4, as the claim states it, fails for a [timeLimit] of 0: the option is
    given, yet the guard [options.timeLimit] is falsy and the greatest
    [score] (1) is returned, not the greatest [totalAnswered] (2). *)
Lemma getBestScore_timeLimit_zero :
  let h := {| userId := "u1"; mode := Just "timeAttack"; score := 1;
              totalAnswered := 2; timeLimit := Just 0; rest_h := ∅ |} in
  let options := Just {| opt_timeLimit := Just 0 |} in
  given_timeLimit options 0
  ∧ getBestScore [h] "u1" "timeAttack" options = Some (Num 1)
  ∧ ¬ best_of (λ h, matching "u1" "timeAttack" h ∧ timeLimit h = Just 0)
        totalAnswered [h] (getBestScore [h] "u1" "timeAttack" options).
Proof.
  cbv zeta. split; [eexists; split; reflexivity|]. split; [reflexivity|].
  change (getBestScore _ _ _ _) with (Some (Num 1)). simpl.
  intros [_ Hmax].
  specialize (Hmax _ (list_elem_of_here _ _)). simpl in Hmax.
  assert (2 ≤ 1) by (apply Hmax; repeat split). lia.
Qed.

(** ** migrateHistory, migrateProducts, trimHistory *)

Lemma or_str_normal (x : maybe string) :
  or_str x "normal" =
    match x with
    | Just s => if decide (s = "") then Just "normal" else Just s
    | _ => Just "normal"
    end.
Proof.
  unfold or_str. destruct x as [| |s]; simpl; try reflexivity.
  destruct (decide (s = "")) as [->|Hs]; [reflexivity|].
  apply String.eqb_neq in Hs. now rewrite Hs.
Qed.

Lemma or_str_truthy (x : maybe string) (d : string) :
  d ≠ "" → truthy_str (or_str x d) = true.
Proof.
  intros Hd. unfold or_str. destruct (truthy_str x) eqn:Hx; [exact Hx|].
  simpl. now apply negb_true_iff, String.eqb_neq.
Qed.

Lemma migrateEntry_idem (h : HistoryEntry) :
  migrateEntry (migrateEntry h) = migrateEntry h.
Proof.
  unfold migrateEntry at 1 2. simpl. f_equal.
  unfold or_str at 1. now rewrite or_str_truthy.
Qed.

Lemma migrateProduct_idem (p : Product) :
  migrateProduct (migrateProduct p) = migrateProduct p.
Proof. reflexivity. Qed.

(** C3, as the code has it: [migrateHistory] returns a sequence of the same
    length; an entry whose [mode] is missing, [null] or the empty string gets
    the mode "normal", every other [mode] and all the other fields of every
    entry are unchanged. *)
Theorem migrateHistory_entries (history : list HistoryEntry) :
  length (migrateHistory history) = length history
  ∧ ∀ i h, history !! i = Some h →
      ∃ h', migrateHistory history !! i = Some h'
        ∧ userId h' = userId h ∧ score h' = score h
        ∧ totalAnswered h' = totalAnswered h ∧ timeLimit h' = timeLimit h
        ∧ rest_h h' = rest_h h
        ∧ mode h' = match mode h with
                    | Just s => if decide (s = "") then Just "normal" else Just s
                    | _ => Just "normal"
                    end.
Proof.
  unfold migrateHistory. split; [apply length_map|].
  intros i h Hi. exists (migrateEntry h). split.
  - change (map migrateEntry history) with (migrateEntry <$> history).
    now rewrite list_lookup_fmap, Hi.
  - repeat (split; [reflexivity|]). apply or_str_normal.
Qed.

(** C3, as the claim states it, fails for an entry whose [mode] is present
    and is the empty string: it does not pass through, it becomes
    "normal". *)
Lemma migrateHistory_empty_mode :
  let h := {| userId := "u1"; mode := Just ""; score := 3;
              totalAnswered := 5; timeLimit := Undefined; rest_h := ∅ |} in
  mode h = Just ""
  ∧ mode <$> migrateHistory [h] = [Just "normal"]
  ∧ mode <$> migrateHistory [h] ≠ [mode h].
Proof. cbv zeta. split; [reflexivity|]. split; [reflexivity|discriminate]. Qed.

(** C8: [migrateProducts] returns a sequence of the same length in which a
    product whose [stock] is [null] or [undefined] has stock 99, a present
    stock (0 included) is kept, and the other fields are unchanged. *)
Theorem migrateProducts_entries (products : list Product) :
  length (migrateProducts products) = length products
  ∧ ∀ i p, products !! i = Some p →
      ∃ p', migrateProducts products !! i = Some p'
        ∧ code p' = code p ∧ rest_p p' = rest_p p
        ∧ stock p' = match stock p with
                     | Undefined | Null => Just 99
                     | Just n => Just n
                     end
        ∧ (stock p = Just 0 → stock p' = Just 0).
Proof.
  unfold migrateProducts. split; [apply length_map|].
  intros i p Hi. exists (migrateProduct p). split.
  - change (map migrateProduct products) with (migrateProduct <$> products).
    now rewrite list_lookup_fmap, Hi.
  - split; [reflexivity|]. split; [reflexivity|]. simpl.
    split; [now destruct (stock p)|]. now intros ->.
Qed.

(** C9: [migrateHistory] and [migrateProducts] are idempotent. *)
Theorem migrate_idempotent (history : list HistoryEntry)
    (products : list Product) :
  migrateHistory (migrateHistory history) = migrateHistory history
  ∧ migrateProducts (migrateProducts products) = migrateProducts products.
Proof.
  unfold migrateHistory, migrateProducts. rewrite !map_map. split.
  - apply map_ext. intros h. apply migrateEntry_idem.
  - apply map_ext. intros p. apply migrateProduct_idem.
Qed.

Lemma slice_last {A} (k : nat) (l : list A) :
  (0 < k)%nat → slice (- Z.of_nat k) l = drop (length l - k) l.
Proof.
  intros Hk. unfold slice.
  destruct (Z.ltb_spec (- Z.of_nat k) 0) as [_|Hle]; [|lia].
  f_equal. lia.
Qed.

Lemma last_elements_drop {A} (k : nat) (l : list A) :
  last_elements k l = drop (length l - k) l.
Proof.
  unfold last_elements. rewrite firstn_rev. apply rev_involutive.
Qed.

(** C6: [trimHistory H] has length [min |H| 500] and is the last
    [min |H| 500] elements of [H] in their order; when [|H| <= 500] it is
    [H] itself. *)
Theorem trimHistory_last (history : list HistoryEntry) :
  length (trimHistory history) = Nat.min (length history) 500
  ∧ trimHistory history = last_elements (Nat.min (length history) 500) history
  ∧ ((length history ≤ 500)%nat → trimHistory history = history).
Proof.
  unfold trimHistory. rewrite last_elements_drop.
  destruct (Nat.leb_spec (length history) 500) as [Hle|Hgt].
  - rewrite Nat.min_l by exact Hle. rewrite Nat.sub_diag. simpl.
    split; [reflexivity|]. split; reflexivity.
  - rewrite Nat.min_r by lia.
    change (-500) with (- Z.of_nat 500). rewrite slice_last by lia.
    split; [rewrite length_drop; lia|]. split; [reflexivity|lia].
Qed.

(** ** The random source and the loops *)

Lemma floor_mul_lt (u : sample) (n : nat) :
  (0 < n)%nat → (floor_mul u n < n)%nat.
Proof.
  intros Hn. unfold floor_mul.
  apply Nat.Div0.div_lt_upper_bound. nia.
Qed.

Lemma random_below_lt (n : nat) (g : Rng) :
  (0 < n)%nat → (fst (random_below n g) < n)%nat.
Proof. intros Hn. simpl. now apply floor_mul_lt. Qed.

(** The quantity drawn for a task: [Math.floor(Math.random() * 3) + 1]. *)
Lemma random_quantity_range (g : Rng) :
  1 ≤ Z.of_nat (fst (random_below 3 g)) + 1 ≤ 3.
Proof.
  pose proof (random_below_lt 3 g ltac:(lia)). lia.
Qed.

(** A property that holds before a loop and that every pass keeps holds
    after it. *)
Lemma for_loop_invariant {St} (P : St → Prop) (body : nat → St → Rand St) :
  (∀ i s g, P s → P (fst (body i s g))) →
  ∀ n i s g, P s → P (fst (for_loop n i body s g)).
Proof.
  intros Hbody. induction n as [|n IH]; intros i s g Hs; simpl; [exact Hs|].
  unfold bind. specialize (Hbody i s g Hs).
  destruct (body i s g) as [s' g']. now apply IH.
Qed.

(** The first [n] passes of a loop of [n + m] passes are the loop of [n]
    passes: the states a loop goes through are the results of its shorter
    runs. *)
Lemma for_loop_add {St} (body : nat → St → Rand St) (n m i : nat) (s : St)
    (g : Rng) :
  for_loop (n + m) i body s g
  = let (s', g') := for_loop n i body s g in
    for_loop m (i + n) body s' g'.
Proof.
  revert i s g. induction n as [|n IH]; intros i s g; simpl.
  - now rewrite Nat.add_0_r.
  - unfold bind. destruct (body i s g) as [s1 g1].
    rewrite IH. now rewrite Nat.add_succ_comm.
Qed.

(** ** generateRandomTask, generateRandomTasks *)

Lemma in_stock_spec (p : Product) :
  in_stock p = true ↔ 0 < effective_stock p.
Proof. unfold in_stock, effective_stock. apply Z.ltb_lt. Qed.

Lemma filter_nil_iff {A} (f : A → bool) (l : list A) :
  List.filter f l = [] ↔ ∀ x, In x l → f x = false.
Proof.
  split.
  - intros Hnil x Hx. destruct (f x) eqn:Hfx; [|reflexivity].
    assert (Hin : In x (List.filter f l)) by (apply filter_In; auto).
    rewrite Hnil in Hin. destruct Hin.
  - intros Hall. induction l as [|a l IH]; simpl; [reflexivity|].
    rewrite (Hall a) by now left. apply IH. intros x Hx. apply Hall. now right.
Qed.

Lemma generateRandomTask_none (products : list Product) (g : Rng) :
  List.filter in_stock products = [] →
  generateRandomTask products g = (None, g).
Proof. intros Hnil. unfold generateRandomTask. now rewrite Hnil. Qed.

Lemma generateRandomTask_some (products : list Product) (g : Rng) :
  List.filter in_stock products ≠ [] →
  ∃ t g', generateRandomTask products g = (Some t, g')
    ∧ In (product t) (List.filter in_stock products)
    ∧ (∃ k, 1 ≤ k ≤ 3 ∧ quantity t = Z.min k (effective_stock (product t)))
    ∧ completed t = false ∧ found t = Null.
Proof.
  intros Hne. unfold generateRandomTask.
  destruct (List.filter in_stock products) as [|p0 rest] eqn:Hav; [done|].
  clear Hne. unfold bind.
  destruct (random_below (length (p0 :: rest)) g) as [i g1] eqn:Hi.
  destruct (random_below 3 g1) as [r g2] eqn:Hr.
  eexists _, g2. split; [reflexivity|]. cbn [product quantity completed found].
  split; [|split; [|split; reflexivity]].
  - apply nth_In.
    pose proof (random_below_lt (length (p0 :: rest)) g) as Hlt.
    rewrite Hi in Hlt. apply Hlt. simpl. lia.
  - exists (Z.of_nat r + 1). split; [|reflexivity].
    pose proof (random_quantity_range g1) as Hq. now rewrite Hr in Hq.
Qed.

(** C7: [generateRandomTask] returns [null] exactly when no product has an
    effective stock above 0; otherwise the task's product is one of the
    available products of the list, as it is there (no stock field is
    changed, and the function has no ledger), its quantity is
    [min r stock] for an integer [r] of [1, 3] and the product's effective
    stock, so it lies in [1, 3] and is at most that stock, [completed] is
    [false] and [found] is [null]. *)
Theorem generateRandomTask_result (products : list Product) (g : Rng) :
  let r := fst (generateRandomTask products g) in
  (r = None ↔ ∀ p, p ∈ products → ¬ 0 < effective_stock p)
  ∧ ∀ t, r = Some t →
      product t ∈ products
      ∧ 0 < effective_stock (product t)
      ∧ (∃ k, 1 ≤ k ≤ 3 ∧ quantity t = Z.min k (effective_stock (product t)))
      ∧ 1 ≤ quantity t ≤ 3
      ∧ quantity t ≤ effective_stock (product t)
      ∧ completed t = false
      ∧ found t = Null.
Proof.
  cbv zeta.
  destruct (decide (List.filter in_stock products = [])) as [Hnil|Hne].
  - rewrite generateRandomTask_none by exact Hnil. simpl.
    split; [|discriminate]. split; [|reflexivity].
    intros _ p Hp Hpos. apply list_elem_of_In in Hp.
    apply in_stock_spec in Hpos.
    rewrite (proj1 (filter_nil_iff _ _) Hnil p Hp) in Hpos. discriminate.
  - destruct (generateRandomTask_some products g Hne)
      as (t & g' & -> & Hin & Hq & Hc & Hf). simpl. split.
    + split; [discriminate|]. intros Hall. exfalso.
      apply filter_In in Hin as [Hin Hpos].
      apply (Hall (product t)); [now apply list_elem_of_In|].
      now apply in_stock_spec.
    + intros t' [= <-]. apply filter_In in Hin as [Hin Hpos].
      apply in_stock_spec in Hpos. destruct Hq as (k & Hk & Hq).
      split; [now apply list_elem_of_In|]. split; [exact Hpos|].
      split; [now exists k|].
      split; [lia|]. split; [lia|]. split; assumption.
Qed.

Lemma generateRandomTasks_loop_none (products : list Product) :
  List.filter in_stock products = [] →
  ∀ n i tasks g,
    fst (for_loop n i
           (λ _ tasks,
              let* task := generateRandomTask products in
              match task with
              | Some t => ret (tasks ++ [t])
              | None => ret tasks
              end) tasks g) = tasks.
Proof.
  intros Hnil. induction n as [|n IH]; intros i tasks g; simpl; [reflexivity|].
  unfold bind at 1 2. rewrite generateRandomTask_none by exact Hnil.
  unfold ret at 1. apply IH.
Qed.

Lemma generateRandomTasks_loop_some (products : list Product) :
  List.filter in_stock products ≠ [] →
  ∀ n i tasks g,
    length (fst (for_loop n i
                   (λ _ tasks,
                      let* task := generateRandomTask products in
                      match task with
                      | Some t => ret (tasks ++ [t])
                      | None => ret tasks
                      end) tasks g)) = (length tasks + n)%nat.
Proof.
  intros Hne. induction n as [|n IH]; intros i tasks g; simpl; [lia|].
  unfold bind at 1 2.
  destruct (generateRandomTask_some products g Hne) as (t & g' & -> & _).
  unfold ret at 1. rewrite IH, length_app. simpl. lia.
Qed.

(** C10: [generateRandomTasks products count] returns [count] tasks when
    some product has an effective stock above 0 and no task otherwise; so
    its length is 0 or [count], never in between. *)
Theorem generateRandomTasks_length (products : list Product) (count : nat)
    (g : Rng) :
  let tasks := fst (generateRandomTasks products count g) in
  ((∃ p, p ∈ products ∧ 0 < effective_stock p) → length tasks = count)
  ∧ ((∀ p, p ∈ products → ¬ 0 < effective_stock p) → tasks = [])
  ∧ (length tasks = 0%nat ∨ length tasks = count).
Proof.
  cbv zeta. unfold generateRandomTasks.
  destruct (decide (List.filter in_stock products = [])) as [Hnil|Hne].
  - rewrite generateRandomTasks_loop_none by exact Hnil.
    split; [|split; [reflexivity|now left]].
    intros (p & Hp & Hpos). exfalso. apply list_elem_of_In in Hp.
    apply in_stock_spec in Hpos.
    rewrite (proj1 (filter_nil_iff _ _) Hnil p Hp) in Hpos. discriminate.
  - pose proof (generateRandomTasks_loop_some products Hne count 0%nat [] g)
      as Hlen. simpl in Hlen.
    split; [intros _; exact Hlen|]. split; [|now right].
    intros Hall. exfalso. apply Hne, filter_nil_iff. intros p Hp.
    apply not_true_is_false. intros Hpos. apply in_stock_spec in Hpos.
    apply (Hall p); [now apply list_elem_of_In|exact Hpos].
Qed.

(** ** The ledger object *)

Lemma round_double_exact (x : Z) : Z.abs x ≤ 2 ^ 53 → round_double x = x.
Proof.
  intros Hx. unfold round_double. now rewrite (proj2 (Z.leb_le _ _) Hx).
Qed.

Lemma round_double_nonneg (x : Z) : 0 ≤ x → 0 ≤ round_double x.
Proof.
  intros Hx. unfold round_double. destruct (Z.abs x <=? 2 ^ 53); [exact Hx|].
  cbv zeta. set (e := Z.log2 (Z.abs x) - 52).
  assert (Hq : 0 ≤ Z.abs x / 2 ^ e)
    by (apply Z_div_nonneg_nonneg; [lia|apply Z.pow_nonneg; lia]).
  apply Z.mul_nonneg_nonneg; [now apply Z.sgn_nonneg|].
  apply Z.mul_nonneg_nonneg; [|apply Z.pow_nonneg; lia].
  repeat match goal with |- context [if ?b then _ else _] => destruct b end;
    lia.
Qed.

Lemma assign_insert (ledger : gmap string Z) (k : string) (v : Z) :
  k ≠ "__proto__" → assign ledger k v = <[k := v]> ledger.
Proof.
  intros Hk. unfold assign. destruct (ledger !! k); [reflexivity|].
  apply String.eqb_neq in Hk. now rewrite Hk.
Qed.

Lemma assign_own (ledger : gmap string Z) (k : string) (v : Z) :
  is_Some (ledger !! k) → assign ledger k v = <[k := v]> ledger.
Proof. intros [n Hn]. unfold assign. now rewrite Hn. Qed.

Lemma assign_other (ledger : gmap string Z) (k c : string) (v : Z) :
  c ≠ k → assign ledger k v !! c = ledger !! c.
Proof.
  intros Hc. unfold assign. destruct (ledger !! k);
    [now apply lookup_insert_ne|].
  destruct (String.eqb k "__proto__"); [reflexivity|].
  now apply lookup_insert_ne.
Qed.

Lemma assign_proto (ledger : gmap string Z) (k : string) (v : Z) :
  ledger !! "__proto__" = None → assign ledger k v !! "__proto__" = None.
Proof.
  intros Hnone. destruct (String.eqb_spec k "__proto__") as [->|Hk].
  - unfold assign. now rewrite Hnone.
  - rewrite assign_other by congruence. exact Hnone.
Qed.

Lemma remaining_proto (ledger : gmap string Z) (p : Product) :
  ledger !! "__proto__" = None → code p = "__proto__" →
  remaining ledger p = None.
Proof. intros Hnone Hp. unfold remaining. now rewrite Hp, Hnone. Qed.

Lemma remaining_own (ledger : gmap string Z) (p : Product) (n : Z) :
  ledger !! code p = Some n → remaining ledger p = Some n.
Proof. intros Hn. unfold remaining. now rewrite Hn. Qed.

(** ** generateTaskWithStock *)

(** What one call does: either no task and the ledger as it was, or a task
    for a product of the list that is not in [usedCodes] and for which the
    ledger, or else the product, gives a stock above 0, with a quantity of
    at most 3 and at most that stock, and the ledger assigned, at the
    product's code, the difference of the two as a double. *)
Lemma generateTaskWithStock_spec (products : list Product)
    (remainingStock : gmap string Z) (usedCodes : option (gset string))
    (g : Rng) :
  match fst (generateTaskWithStock products remainingStock usedCodes g) with
  | (None, ledger) => ledger = remainingStock
  | (Some t, ledger) =>
      In (product t) products
      ∧ (∀ used, usedCodes = Some used → code (product t) ∉ used)
      ∧ ∃ stock,
          remaining remainingStock (product t) = Some stock
          ∧ 0 < stock
          ∧ 1 ≤ quantity t ≤ 3
          ∧ quantity t ≤ stock
          ∧ ledger = assign remainingStock (code (product t))
                       (round_double (stock - quantity t))
  end.
Proof.
  unfold generateTaskWithStock.
  set (stocked := List.filter
                    (λ p, above_zero (remaining remainingStock p)) products).
  set (available := match usedCodes with
                    | Some used =>
                        List.filter
                          (λ p, negb (bool_decide (code p ∈ used))) stocked
                    | None => stocked
                    end).
  assert (Hav : ∀ p, In p available →
            In p products
            ∧ above_zero (remaining remainingStock p) = true
            ∧ ∀ used, usedCodes = Some used → code p ∉ used).
  { intros p Hp. subst available stocked.
    destruct usedCodes as [used|].
    - apply filter_In in Hp as [Hp Hused]. apply filter_In in Hp as [Hp Hpos].
      split; [exact Hp|]. split; [exact Hpos|].
      intros ? [= <-]. apply negb_true_iff in Hused.
      now apply bool_decide_eq_false in Hused.
    - apply filter_In in Hp as [Hp Hpos].
      split; [exact Hp|]. split; [exact Hpos|]. discriminate. }
  clearbody available. destruct available as [|p0 rest]; [reflexivity|].
  unfold bind.
  destruct (random_below (length (p0 :: rest)) g) as [i g1] eqn:Hi.
  destruct (random_below 3 g1) as [r g2] eqn:Hr.
  cbn [fst ret product quantity].
  assert (Hin : In (nth i (p0 :: rest) p0) (p0 :: rest)).
  { apply nth_In.
    pose proof (random_below_lt (length (p0 :: rest)) g) as Hlt.
    rewrite Hi in Hlt. apply Hlt. simpl. lia. }
  destruct (Hav _ Hin) as (Hprod & Hpos & Hused).
  pose proof (random_quantity_range g1) as Hq. rewrite Hr in Hq. simpl in Hq.
  destruct (remaining remainingStock (nth i (p0 :: rest) p0)) as [n|];
    [|discriminate].
  apply Z.ltb_lt in Hpos. cbn [default from_option id].
  split; [exact Hprod|]. split; [exact Hused|]. exists n.
  split; [reflexivity|]. split; [exact Hpos|].
  split; [lia|]. split; [lia|reflexivity].
Qed.

(** The stock read again for the chosen product is a number. *)
Lemma available_number (products : list Product)
    (remainingStock : gmap string Z) (p : Product) :
  In p (List.filter (λ p, above_zero (remaining remainingStock p)) products) →
  ∃ n, remaining remainingStock p = Some n ∧ 0 < n.
Proof.
  intros Hp. apply filter_In in Hp as [_ Hpos].
  destruct (remaining remainingStock p) as [n|]; [|discriminate].
  exists n. split; [reflexivity|]. now apply Z.ltb_lt.
Qed.

Lemma slip_item_result (products : list Product) (st : SlipState) (g : Rng) :
  fst (slip_item products st g) =
    let r := fst (generateTaskWithStock products (st_stock st)
                    (Some (st_usedCodes st)) g) in
    match fst r with
    | Some task =>
        {| st_tasks := st_tasks st ++ [task];
           st_usedCodes := {[code (product task)]} ∪ st_usedCodes st;
           st_stock := snd r |}
    | None =>
        {| st_tasks := st_tasks st;
           st_usedCodes := st_usedCodes st;
           st_stock := snd r |}
    end.
Proof.
  unfold slip_item, bind.
  destruct (generateTaskWithStock _ _ _ g) as [[[t|] ledger] g']; reflexivity.
Qed.

(** ** Distinct product codes within a slip *)

Lemma slip_item_distinct (products : list Product) (st : SlipState)
    (g : Rng) :
  codes_distinct st → codes_distinct (fst (slip_item products st g)).
Proof.
  intros [Hnd Hused]. rewrite slip_item_result. cbv zeta.
  pose proof (generateTaskWithStock_spec products (st_stock st)
                (Some (st_usedCodes st)) g) as Hspec.
  destruct (fst (generateTaskWithStock _ _ _ g)) as [[t|] ledger]; simpl.
  - destruct Hspec as (_ & Hnew & _).
    specialize (Hnew _ eq_refl). unfold codes_distinct. simpl.
    unfold task_codes in *. rewrite map_app. simpl. split.
    + apply NoDup_app. split; [exact Hnd|]. split; [|apply NoDup_singleton].
      intros c Hc Hc'. apply list_elem_of_singleton in Hc' as ->.
      apply Hnew, Hused, Hc.
    + intros c Hc. apply elem_of_app in Hc as [Hc|Hc].
      * apply elem_of_union_r, Hused, Hc.
      * apply list_elem_of_singleton in Hc as ->.
        apply elem_of_union_l, elem_of_singleton. reflexivity.
  - split; assumption.
Qed.

Lemma slip_body_slips (products : list Product) (itemsPerSlip i : nat)
    (acc : list Slip * gmap string Z) (g : Rng) :
  ∃ st, fst (slip_body products itemsPerSlip i acc g)
        = (fst acc ++ [{| slipId := "slip-" +:+ pretty i;
                          slipNumber := Z.of_nat i + 1;
                          tasks := st_tasks st;
                          slip_completed := false |}],
           st_stock st)
    ∧ st = fst (for_loop itemsPerSlip 0 (λ _, slip_item products)
                  {| st_tasks := []; st_usedCodes := ∅;
                     st_stock := snd acc |} g).
Proof.
  unfold slip_body, bind.
  destruct (for_loop itemsPerSlip 0 _ _ g) as [st g']. now exists st.
Qed.

Lemma generateSlips_fst (products : list Product)
    (slipCount itemsPerSlip : nat) (g : Rng) :
  fst (generateSlips products slipCount itemsPerSlip g)
  = fst (fst (generateSlips_ledger products slipCount itemsPerSlip g)).
Proof.
  unfold generateSlips, bind.
  now destruct (generateSlips_ledger products slipCount itemsPerSlip g).
Qed.

(** C5: within each slip that [generateSlips] returns, no two tasks have
    the same product code. *)
Theorem generateSlips_distinct_codes (products : list Product)
    (slipCount itemsPerSlip : nat) (g : Rng) :
  Forall (λ slip, NoDup (task_codes (tasks slip)))
    (fst (generateSlips products slipCount itemsPerSlip g)).
Proof.
  rewrite generateSlips_fst. unfold generateSlips_ledger.
  apply (for_loop_invariant
           (λ acc : list Slip * gmap string Z,
              Forall (λ slip, NoDup (task_codes (tasks slip))) (fst acc)));
    [|constructor].
  intros i acc g' Hacc.
  destruct (slip_body_slips products itemsPerSlip i acc g') as (st & -> & ->).
  cbn [fst]. apply Forall_app. split; [exact Hacc|].
  constructor; [|constructor]. cbn [tasks].
  apply (for_loop_invariant codes_distinct).
  - intros _ s g''. apply slip_item_distinct.
  - split; [constructor|]. intros c Hc. inversion Hc.
Qed.

(** ** The stock ledger *)

Lemma allocated_app (c : string) (ts1 ts2 : list Task) :
  allocated c (ts1 ++ ts2) = allocated c ts1 + allocated c ts2.
Proof.
  unfold allocated. rewrite List.filter_app, map_app.
  induction (map quantity (List.filter _ ts1)) as [|q qs IH]; simpl; lia.
Qed.

Lemma allocated_one (c : string) (t : Task) :
  allocated c [t] = if String.eqb (code (product t)) c then quantity t else 0.
Proof.
  unfold allocated. simpl.
  destruct (String.eqb (code (product t)) c); simpl; lia.
Qed.

Lemma all_tasks_snoc (slips : list Slip) (slip : Slip) :
  all_tasks (slips ++ [slip]) = all_tasks slips ++ tasks slip.
Proof. unfold all_tasks. rewrite flat_map_app. simpl. now rewrite app_nil_r. Qed.

Lemma allocated_count (c : string) (ts : list Task) :
  Forall (λ t, 1 ≤ quantity t ≤ 3) ts →
  Z.of_nat (length (tasks_for c ts)) ≤ allocated c ts
  ∧ allocated c ts ≤ 3 * Z.of_nat (length (tasks_for c ts)).
Proof.
  unfold allocated, tasks_for. induction 1 as [|t ts Ht _ IH]; simpl; [lia|].
  destruct (String.eqb (code (product t)) c); simpl; lia.
Qed.

Section SlipInvariant.

Variable products : list Product.

(** A property of the tasks generated so far and of the ledger that
    every call of [generateTaskWithStock] keeps. *)
Variable Inv : list Task → gmap string Z → Prop.

Hypothesis Inv_step : ∀ ts ledger used g,
  Inv ts ledger →
  match fst (generateTaskWithStock products ledger (Some used) g) with
  | (None, ledger') => Inv ts ledger'
  | (Some t, ledger') => Inv (ts ++ [t]) ledger'
  end.

Lemma slip_item_inv (prev : list Task) (st : SlipState) (g : Rng) :
  Inv (prev ++ st_tasks st) (st_stock st) →
  let st' := fst (slip_item products st g) in
  Inv (prev ++ st_tasks st') (st_stock st').
Proof.
  intros Hst. cbv zeta. rewrite slip_item_result. cbv zeta.
  pose proof (Inv_step _ _ (st_usedCodes st) g Hst) as Hstep.
  destruct (fst (generateTaskWithStock _ _ _ g)) as [[t|] ledger]; simpl.
  - now rewrite app_assoc.
  - exact Hstep.
Qed.

Lemma slip_loop_inv (prev : list Task) (n i : nat) (st : SlipState) (g : Rng) :
  Inv (prev ++ st_tasks st) (st_stock st) →
  let st' := fst (for_loop n i (λ _, slip_item products) st g) in
  Inv (prev ++ st_tasks st') (st_stock st').
Proof.
  intros Hst.
  apply (for_loop_invariant
           (λ st, Inv (prev ++ st_tasks st) (st_stock st))); [|exact Hst].
  intros _ s g'. apply slip_item_inv.
Qed.

Lemma slip_body_inv (itemsPerSlip i : nat)
    (acc : list Slip * gmap string Z) (g : Rng) :
  Inv (all_tasks (fst acc)) (snd acc) →
  let acc' := fst (slip_body products itemsPerSlip i acc g) in
  Inv (all_tasks (fst acc')) (snd acc').
Proof.
  intros Hacc. cbv zeta.
  destruct (slip_body_slips products itemsPerSlip i acc g) as (st & -> & ->).
  cbn [fst snd]. rewrite all_tasks_snoc. cbn [tasks].
  apply slip_loop_inv. simpl. now rewrite app_nil_r.
Qed.

Lemma slips_loop_inv (itemsPerSlip n i : nat)
    (acc : list Slip * gmap string Z) (g : Rng) :
  Inv (all_tasks (fst acc)) (snd acc) →
  let acc' := fst (for_loop n i (slip_body products itemsPerSlip) acc g) in
  Inv (all_tasks (fst acc')) (snd acc').
Proof.
  intros Hacc.
  apply (for_loop_invariant (λ acc, Inv (all_tasks (fst acc)) (snd acc)));
    [|exact Hacc].
  intros j a g'. apply slip_body_inv.
Qed.

Lemma generateSlips_inv (slipCount itemsPerSlip : nat) (g : Rng) :
  Inv [] (initial_stock products) →
  let acc := fst (generateSlips_ledger products slipCount itemsPerSlip g) in
  Inv (all_tasks (fst acc)) (snd acc).
Proof. intros Hinit. unfold generateSlips_ledger. now apply slips_loop_inv. Qed.

(** The property holds at every point of the generation. *)
Lemma ledger_after_inv (itemsPerSlip k j : nat) (g : Rng) :
  Inv [] (initial_stock products) →
  ∃ ts, Inv ts (ledger_after products itemsPerSlip k j g).
Proof.
  intros Hinit. unfold ledger_after.
  pose proof (slips_loop_inv itemsPerSlip k 0 ([], initial_stock products) g
                Hinit) as Hacc.
  cbv zeta in Hacc. destruct (for_loop k 0 _ _ g) as [acc g'].
  cbn [fst] in Hacc. eexists.
  apply (slip_loop_inv (all_tasks (fst acc))). simpl. now rewrite app_nil_r.
Qed.

End SlipInvariant.

Lemma stock_accounted_step (products : list Product) (ts : list Task)
    (ledger : gmap string Z) (used : gset string) (g : Rng) :
  stock_accounted products ts ledger →
  match fst (generateTaskWithStock products ledger (Some used) g) with
  | (None, ledger') => stock_accounted products ts ledger'
  | (Some t, ledger') => stock_accounted products (ts ++ [t]) ledger'
  end.
Proof.
  intros (Hproto & Hcons & Hnn & Hts).
  pose proof (generateTaskWithStock_spec products ledger (Some used) g)
    as Hspec.
  destruct (fst (generateTaskWithStock _ _ _ g)) as [[t|] ledger'];
    [|subst ledger'; now repeat split].
  destruct Hspec as (Hq & _ & n & Hrem & Hpos & Hone & Hle & ->).
  set (q := product t) in *.
  assert (Hcode : code q ≠ "__proto__").
  { intros Hcode. now rewrite (remaining_proto _ _ Hproto Hcode) in Hrem. }
  assert (Halloc : ∀ c, 0 ≤ allocated c ts).
  { intros c. etransitivity; [|apply allocated_count].
    - lia.
    - eapply Forall_impl; [exact Hts|]. now intros t' (_ & Hq' & _). }
  assert (Hstock : 0 < effective_stock q).
  { destruct (Z.le_gt_cases (effective_stock q) (2 ^ 53)) as [Hsmall|Hbig];
      [|lia].
    rewrite (remaining_own _ _ _ (Hcons q Hq Hcode Hsmall)) in Hrem.
    injection Hrem as <-. specialize (Halloc (code q)). lia. }
  rewrite assign_insert by exact Hcode.
  split; [now rewrite lookup_insert_ne by congruence|]. split; [|split].
  - intros p Hp Hpcode Hsmall. rewrite allocated_app, allocated_one. fold q.
    destruct (String.eqb_spec (code q) (code p)) as [Heq|Hne].
    + pose proof (Hcons p Hp Hpcode Hsmall) as Hp'. rewrite <- Heq in *.
      rewrite lookup_insert_eq. f_equal.
      rewrite (remaining_own _ _ _ Hp') in Hrem. injection Hrem as <-.
      specialize (Halloc (code q)).
      rewrite round_double_exact by lia. lia.
    + rewrite lookup_insert_ne by exact Hne. rewrite (Hcons p Hp Hpcode Hsmall).
      f_equal. lia.
  - intros p Hp Hpstock m.
    destruct (String.eqb_spec (code q) (code p)) as [Heq|Hne].
    + rewrite Heq, lookup_insert_eq. intros [= <-].
      apply round_double_nonneg. lia.
    + rewrite lookup_insert_ne by exact Hne. now apply Hnn.
  - apply Forall_app. split; [exact Hts|]. constructor; [|constructor].
    fold q. repeat split; try assumption; lia.
Qed.

Lemma initial_stock_other (products : list Product) (m : gmap string Z)
    (c : string) :
  c ∉ map code products →
  fold_left (λ rs p, assign rs (code p) (nullish (stock p) 99)) products m !! c
  = m !! c.
Proof.
  revert m. induction products as [|a l IH]; intros m Hc; simpl; [reflexivity|].
  simpl in Hc. apply not_elem_of_cons in Hc as [Hne Hc].
  rewrite IH by exact Hc. now apply assign_other.
Qed.

Lemma initial_stock_lookup (products : list Product) (m : gmap string Z)
    (p : Product) :
  NoDup (map code products) → In p products → code p ≠ "__proto__" →
  fold_left (λ rs p, assign rs (code p) (nullish (stock p) 99)) products m
    !! code p = Some (effective_stock p).
Proof.
  revert m. induction products as [|a l IH]; intros m Hnd Hp Hcode;
    [destruct Hp|].
  simpl in Hnd. apply NoDup_cons in Hnd as [Ha Hnd]. simpl.
  destruct Hp as [->|Hp]; [|now apply IH].
  rewrite initial_stock_other by exact Ha.
  rewrite assign_insert by exact Hcode. apply lookup_insert_eq.
Qed.

Lemma initial_stock_proto (products : list Product) (m : gmap string Z) :
  m !! "__proto__" = None →
  fold_left (λ rs p, assign rs (code p) (nullish (stock p) 99)) products m
    !! "__proto__" = None.
Proof.
  revert m. induction products as [|a l IH]; intros m Hm; [exact Hm|].
  simpl. apply IH. now apply assign_proto.
Qed.

Lemma stock_accounted_initial (products : list Product) :
  NoDup (map code products) →
  stock_accounted products [] (initial_stock products).
Proof.
  intros Hnd. unfold initial_stock. split; [|split; [|split]].
  - now apply initial_stock_proto.
  - intros p Hp Hcode _. rewrite initial_stock_lookup by assumption.
    f_equal. unfold allocated. simpl. lia.
  - intros p Hp Hstock n.
    destruct (String.eqb_spec (code p) "__proto__") as [Heq|Hne].
    + rewrite Heq, initial_stock_proto by reflexivity. discriminate.
    + rewrite initial_stock_lookup by assumption. now intros [= <-].
  - constructor.
Qed.

Lemma slips_loop_length (products : list Product) (itemsPerSlip : nat) :
  ∀ n i acc g,
    length (fst (fst (for_loop n i (slip_body products itemsPerSlip) acc g)))
    = (length (fst acc) + n)%nat.
Proof.
  induction n as [|n IH]; intros i acc g; simpl; [lia|].
  unfold bind at 1.
  destruct (slip_body_slips products itemsPerSlip i acc g) as (st & Hst & _).
  destruct (slip_body products itemsPerSlip i acc g) as [acc' g'].
  simpl in Hst. subst acc'. rewrite IH. cbn [fst]. rewrite length_app.
  simpl. lia.
Qed.

Lemma generateSlips_stock_accounted (products : list Product)
    (slipCount itemsPerSlip : nat) (g : Rng) :
  NoDup (map code products) →
  let acc := fst (generateSlips_ledger products slipCount itemsPerSlip g) in
  stock_accounted products (all_tasks (fst acc)) (snd acc).
Proof.
  intros Hnd.
  apply (generateSlips_inv products (stock_accounted products)).
  - intros ts ledger used g'. apply stock_accounted_step.
  - now apply stock_accounted_initial.
Qed.

(** The ledger that [generateSlips] leaves behind is the ledger after all
    its slips. *)
Lemma ledger_after_all (products : list Product)
    (slipCount itemsPerSlip : nat) (g : Rng) :
  ledger_after products itemsPerSlip slipCount 0 g
  = snd (fst (generateSlips_ledger products slipCount itemsPerSlip g)).
Proof.
  unfold ledger_after, generateSlips_ledger.
  now destruct (for_loop slipCount 0 _ _ g) as [acc g'].
Qed.

(** A code occurs in at most one task of a slip, so in at most as many
    tasks as there are slips. *)
Lemma tasks_for_distinct (c : string) (ts : list Task) :
  NoDup (task_codes ts) → (length (tasks_for c ts) ≤ 1)%nat.
Proof.
  unfold task_codes, tasks_for. induction ts as [|t ts IH]; simpl; [lia|].
  intros Hnd. apply NoDup_cons in Hnd as [Ht Hnd].
  destruct (String.eqb_spec (code (product t)) c) as [Heq|_]; [|now apply IH].
  rewrite (proj2 (filter_nil_iff _ _)); [simpl; lia|].
  intros t' Ht'. apply String.eqb_neq. intros Hc. apply Ht.
  rewrite Heq, <- Hc. apply list_elem_of_In.
  apply (in_map (λ t, code (product t)) _ _ Ht').
Qed.

Lemma slips_distinct (products : list Product)
    (slipCount itemsPerSlip : nat) (g : Rng) :
  Forall (λ slip, NoDup (task_codes (tasks slip)))
    (fst (fst (generateSlips_ledger products slipCount itemsPerSlip g))).
Proof.
  unfold generateSlips_ledger.
  apply (for_loop_invariant
           (λ acc : list Slip * gmap string Z,
              Forall (λ slip, NoDup (task_codes (tasks slip))) (fst acc)));
    [|constructor].
  intros i acc g' Hacc.
  destruct (slip_body_slips products itemsPerSlip i acc g') as (st & -> & ->).
  cbn [fst]. apply Forall_app. split; [exact Hacc|].
  constructor; [|constructor]. cbn [tasks].
  apply (for_loop_invariant codes_distinct).
  - intros _ s g''. apply slip_item_distinct.
  - split; [constructor|]. intros c Hc. inversion Hc.
Qed.

Lemma tasks_for_slips (c : string) (slips : list Slip) :
  Forall (λ slip, NoDup (task_codes (tasks slip))) slips →
  (length (tasks_for c (all_tasks slips)) ≤ length slips)%nat.
Proof.
  unfold all_tasks. induction 1 as [|slip slips Hslip _ IH]; simpl; [lia|].
  unfold tasks_for in *. rewrite List.filter_app, length_app.
  pose proof (tasks_for_distinct c _ Hslip) as Hone.
  unfold tasks_for in Hone. lia.
Qed.

(** C1, as the code has it: for products with pairwise distinct codes,
    [generateSlips products N itemsPerSlip] returns [N] slips, and for each
    product whose effective stock is not negative, the ledger's value at
    its code is at least 0 at every point of the generation, and the
    quantities of the tasks with its code, over all slips, sum to at most
    that stock when the stock is at most 2^53, up to where the ledger's
    subtraction is exact, or [N] is at most 2^51; for a stock of at most
    2^53 the ledger ends at the difference (the code [__proto__] apart,
    which the ledger cannot hold). *)
Theorem generateSlips_stock (products : list Product)
    (slipCount itemsPerSlip : nat) (g : Rng) :
  NoDup (map code products) →
  let slips := fst (generateSlips products slipCount itemsPerSlip g) in
  length slips = slipCount
  ∧ ∀ p, p ∈ products → 0 ≤ effective_stock p →
      (∀ k j n,
         ledger_after products itemsPerSlip k j g !! code p = Some n → 0 ≤ n)
      ∧ (effective_stock p ≤ 2 ^ 53 ∨ Z.of_nat slipCount ≤ 2 ^ 51 →
         allocated (code p) (all_tasks slips) ≤ effective_stock p)
      ∧ (effective_stock p ≤ 2 ^ 53 → code p ≠ "__proto__" →
         ledger_after products itemsPerSlip slipCount 0 g !! code p
         = Some (effective_stock p - allocated (code p) (all_tasks slips))).
Proof.
  intros Hnd. cbv zeta. rewrite ledger_after_all, generateSlips_fst.
  assert (Hlen : length (fst (fst (generateSlips_ledger products slipCount
                                     itemsPerSlip g))) = slipCount)
    by (unfold generateSlips_ledger; now rewrite slips_loop_length).
  split; [exact Hlen|].
  pose proof (slips_distinct products slipCount itemsPerSlip g) as Hdistinct.
  destruct (generateSlips_stock_accounted products slipCount itemsPerSlip g Hnd)
    as (Hproto & Hcons & Hnn & Hts).
  set (ts := all_tasks _) in *. set (ledger := snd _) in *.
  intros p Hp Hstock. apply list_elem_of_In in Hp.
  assert (Hq : Forall (λ t, 1 ≤ quantity t ≤ 3) ts)
    by (eapply Forall_impl; [exact Hts|]; now intros t (_ & Hq & _)).
  destruct (allocated_count (code p) ts Hq) as [Hlow Hhigh].
  split; [|split].
  - intros k j n Hn.
    destruct (ledger_after_inv products (stock_accounted products)
                (stock_accounted_step products) itemsPerSlip k j g
                (stock_accounted_initial products Hnd))
      as (ts' & _ & _ & Hnn' & _).
    now apply (Hnn' p Hp Hstock).
  - intros [Hsmall|Hfew].
    + destruct (String.eqb_spec (code p) "__proto__") as [Heq|Hne].
      * assert (tasks_for (code p) ts = []) as Hnone; [|rewrite Hnone in Hhigh;
          simpl in Hhigh; lia].
        apply filter_nil_iff. intros t Ht. apply String.eqb_neq.
        apply (proj1 (List.Forall_forall _ _) Hts) in Ht. rewrite Heq. tauto.
      * pose proof (Hnn p Hp Hstock _ (Hcons p Hp Hne Hsmall)). lia.
    + destruct (Z.le_gt_cases (effective_stock p) (2 ^ 53)) as [Hsmall|Hbig].
      * destruct (String.eqb_spec (code p) "__proto__") as [Heq|Hne].
        -- assert (tasks_for (code p) ts = []) as Hnone;
             [|rewrite Hnone in Hhigh; simpl in Hhigh; lia].
           apply filter_nil_iff. intros t Ht. apply String.eqb_neq.
           apply (proj1 (List.Forall_forall _ _) Hts) in Ht. rewrite Heq.
           tauto.
        -- pose proof (Hnn p Hp Hstock _ (Hcons p Hp Hne Hsmall)). lia.
      * pose proof (tasks_for_slips (code p) _ Hdistinct) as Hcount.
        fold ts in Hcount. rewrite Hlen in Hcount. lia.
  - intros Hsmall Hne. now apply Hcons.
Qed.

(** C1, as the claim states it, fails for a product whose stock is
    negative: it is never picked, so the quantity allocated to it (0)
    exceeds its effective stock (-1), and the ledger holds -1 from the
    start. *)
Lemma generateSlips_negative_stock :
  let products := [{| code := "A"; stock := Just (-1); rest_p := ∅ |}] in
  let slips := fst (generateSlips products 1 1 zeros) in
  NoDup (map code products)
  ∧ length slips = 1%nat
  ∧ all_tasks slips = []
  ∧ ledger_after products 1 0 0 zeros !! "A" = Some (-1)
  ∧ ledger_after products 1 1 0 zeros !! "A" = Some (-1)
  ∧ ¬ (∀ p, p ∈ products →
         allocated (code p) (all_tasks slips) ≤ effective_stock p).
Proof.
  cbv zeta. split; [apply NoDup_singleton|].
  split; [reflexivity|]. split; [reflexivity|]. split; [reflexivity|].
  split; [reflexivity|].
  intros Hall. specialize (Hall _ (list_elem_of_here _ _)).
  vm_compute in Hall. now apply Hall.
Qed.

(** The theorem at a catalogue of two products, one without a [stock]
    field, for two slips of two items. *)
Lemma generateSlips_stock_witness :
  let a := {| code := "A"; stock := Just 2; rest_p := ∅ |} in
  let b := {| code := "B"; stock := Undefined; rest_p := ∅ |} in
  let slips := fst (generateSlips [a; b] 2 2 zeros) in
  NoDup (map code [a; b])
  ∧ length slips = 2%nat
  ∧ ∀ p, p ∈ [a; b] → 0 ≤ effective_stock p →
      (∀ k j n, ledger_after [a; b] 2 k j zeros !! code p = Some n → 0 ≤ n)
      ∧ (effective_stock p ≤ 2 ^ 53 ∨ Z.of_nat 2 ≤ 2 ^ 51 →
         allocated (code p) (all_tasks slips) ≤ effective_stock p)
      ∧ (effective_stock p ≤ 2 ^ 53 → code p ≠ "__proto__" →
         ledger_after [a; b] 2 2 0 zeros !! code p
         = Some (effective_stock p - allocated (code p) (all_tasks slips))).
Proof.
  cbv zeta.
  assert (Hnd : NoDup (map code
            [{| code := "A"; stock := Just 2; rest_p := ∅ |};
             {| code := "B"; stock := Undefined; rest_p := ∅ |}])).
  { apply (bool_decide_unpack _). vm_compute. exact I. }
  split; [exact Hnd|].
  exact (generateSlips_stock _ 2 2 zeros Hnd).
Defined.

(** What [generateSlips] returns for that catalogue when every call of
    [Math.random()] gives 0: each slip asks for one unit of each product. *)
Example generateSlips_example :
  let products := [{| code := "A"; stock := Just 2; rest_p := ∅ |};
                   {| code := "B"; stock := Undefined; rest_p := ∅ |}] in
  map (λ slip, (slipId slip, slipNumber slip,
                map (λ t, (code (product t), quantity t)) (tasks slip)))
    (fst (generateSlips products 2 2 zeros))
  = [("slip-0", 1, [("A", 1); ("B", 1)]); ("slip-1", 2, [("A", 1); ("B", 1)])].
Proof. vm_compute. reflexivity. Qed.

(** Differences as doubles: exact up to 2^53, then to the nearest double,
    a tie going to the even significand. *)
Example round_double_examples :
  round_double (2 ^ 53 - 1) = 2 ^ 53 - 1
  ∧ round_double (2 ^ 53 + 1) = 2 ^ 53
  ∧ round_double (2 ^ 53 + 3) = 2 ^ 53 + 4
  ∧ round_double (2 ^ 54 - 1) = 2 ^ 54
  ∧ round_double (2 ^ 54 + 6) = 2 ^ 54 + 8
  ∧ round_double (- (2 ^ 53 + 1)) = - 2 ^ 53
  ∧ round_double (10 ^ 22 - 1) = 10 ^ 22.
Proof. repeat split; vm_compute; reflexivity. Qed.

(** The ledger as an object.  A product whose code is [__proto__] is never
    picked by [generateSlips]: the assignment that would enter it in the
    ledger is ignored, and the name reads as an inherited object.  A stock
    above 2^53 is lowered as doubles are: 2^53 + 2 less 1 is 2^53. *)
Example ledger_object_examples :
  let proto := {| code := "__proto__"; stock := Just 5; rest_p := ∅ |} in
  let ctor := {| code := "constructor"; stock := Just 5; rest_p := ∅ |} in
  let big := {| code := "A"; stock := Just (2 ^ 53 + 2); rest_p := ∅ |} in
  all_tasks (fst (generateSlips [proto] 2 2 zeros)) = []
  ∧ initial_stock [proto] = ∅
  ∧ fst (fst (generateTaskWithStock [ctor] ∅ None zeros)) = None
  ∧ task_codes (all_tasks (fst (generateSlips [ctor] 1 1 zeros)))
    = ["constructor"]
  ∧ ledger_after [big] 1 1 0 zeros !! "A" = Some (2 ^ 53).
Proof. cbv zeta. repeat split; vm_compute; reflexivity. Qed.

(** ** escapeHtml *)

Lemma escapeHtml_escape_string (str : list N) :
  escapeHtml str = escape_string str.
Proof.
  unfold escapeHtml, innerHTML, set_textContent, createElement.
  destruct str as [|c str]; [reflexivity|].
  cbn [childNodes tagName]. change (raw_text "div") with false.
  cbn [flat_map]. apply app_nil_r.
Qed.

(** The four units that are replaced, and what each becomes. *)
Lemma escape_unit_cases (c : N) :
  (c = 38%N ∧ escape_unit c = units "&amp;")
  ∨ (c = 160%N ∧ escape_unit c = units "&nbsp;")
  ∨ (c = 60%N ∧ escape_unit c = units "&lt;")
  ∨ (c = 62%N ∧ escape_unit c = units "&gt;")
  ∨ (c ≠ 38%N ∧ c ≠ 160%N ∧ c ≠ 60%N ∧ c ≠ 62%N ∧ escape_unit c = [c]).
Proof.
  unfold escape_unit.
  destruct (N.eqb_spec c 38); [now left|].
  destruct (N.eqb_spec c 160); [right; now left|].
  destruct (N.eqb_spec c 60); [right; right; now left|].
  destruct (N.eqb_spec c 62); [right; right; right; now left|].
  right; right; right; right. repeat (split; [assumption|]). reflexivity.
Qed.

Lemma escape_unit_no_angle (c : N) :
  ¬ In 60%N (escape_unit c) ∧ ¬ In 62%N (escape_unit c).
Proof.
  destruct (escape_unit_cases c)
    as [[-> ->]|[[-> ->]|[[-> ->]|[[-> ->]|(_ & _ & H60 & H62 & ->)]]]];
    split; vm_compute; intuition discriminate.
Qed.

Lemma unescape_escape_unit (c : N) (acc : list N) :
  foldr unescape_step acc (escape_unit c) = c :: acc.
Proof.
  destruct (escape_unit_cases c)
    as [[-> ->]|[[-> ->]|[[-> ->]|[[-> ->]|(H38 & _ & _ & _ & ->)]]]];
    try reflexivity.
  simpl. unfold unescape_step. apply N.eqb_neq in H38. now rewrite H38.
Qed.

Lemma escape_unit_quotes (c : N) :
  List.filter is_quote (escape_unit c) = List.filter is_quote [c].
Proof.
  destruct (escape_unit_cases c)
    as [[-> ->]|[[-> ->]|[[-> ->]|[[-> ->]|(_ & _ & _ & _ & ->)]]]];
    reflexivity.
Qed.

(** C2, as the code has it: [escapeHtml str] is [str] with [&], [<], [>]
    and U+00A0 replaced by [&amp;], [&lt;], [&gt;] and [&nbsp;] and every
    other character kept, the double and the single quote among them; the
    result has
    no literal [<] and no literal [>], and reading its character references
    back gives [str]. *)
Theorem escapeHtml_text (str : list N) :
  escapeHtml str = flat_map escape_unit str
  ∧ ¬ In 60%N (escapeHtml str)
  ∧ ¬ In 62%N (escapeHtml str)
  ∧ List.filter is_quote (escapeHtml str) = List.filter is_quote str
  ∧ unescape (escapeHtml str) = str.
Proof.
  rewrite escapeHtml_escape_string. unfold escape_string.
  split; [reflexivity|].
  assert (Hangle : ∀ a, a = 60%N ∨ a = 62%N → ¬ In a (flat_map escape_unit str)).
  { intros a Ha Hin. apply in_flat_map in Hin as (c & _ & Hc).
    destruct (escape_unit_no_angle c) as [H60 H62].
    destruct Ha as [->| ->]; auto. }
  split; [apply Hangle; now left|]. split; [apply Hangle; now right|].
  clear Hangle. split.
  - induction str as [|c str IH]; [reflexivity|].
    cbn [flat_map]. rewrite List.filter_app, escape_unit_quotes, IH.
    symmetry. apply (List.filter_app is_quote [c] str).
  - unfold unescape. induction str as [|c str IH]; [reflexivity|].
    cbn [flat_map]. rewrite foldr_app, IH. apply unescape_escape_unit.
Qed.

(** C2, as the claim states it, fails on the quotes: in the result for the
    string of the specification's example, a [b] element around a quoted
    [x], the two double quotes (34) stand as they are. *)
Lemma escapeHtml_keeps_quotes :
  let str := [60; 98; 62; 34; 120; 34; 60; 47; 98; 62]%N in
  escapeHtml str
  = units "&lt;b&gt;" ++ [34; 120; 34]%N ++ units "&lt;/b&gt;"
  ∧ In 34%N (escapeHtml str)
  ∧ List.filter is_quote (escapeHtml str) = [34; 34]%N.
Proof.
  cbv zeta. split; [reflexivity|]. split; [|reflexivity].
  vm_compute. tauto.
Qed.

(** ** Runs on concrete data *)

Example getBestScore_examples :
  let history :=
    [entry "u1" (Just "normal") 7 10 Undefined;
     entry "u1" (Just "timeAttack") 4 12 (Just 60);
     entry "u1" (Just "timeAttack") 9 8 (Just 30);
     entry "u2" (Just "normal") 20 20 Undefined] in
  getBestScore history "u1" "normal" Undefined = Some (Num 7)
  ∧ getBestScore history "u1" "timeAttack" (Just (mkOptions (Just 60)))
    = Some (Num 12)
  ∧ getBestScore history "u1" "timeAttack" Undefined = Some (Num 9)
  ∧ getBestScore history "u3" "normal" Undefined = None.
Proof. cbv zeta. repeat split; reflexivity. Qed.

Example trimHistory_example :
  let history := map (λ i, entry "u1" Undefined (Z.of_nat i) 0 Undefined)
                   (seq 0 502) in
  map score (trimHistory history) = map Z.of_nat (seq 2 500).
Proof. vm_compute. reflexivity. Qed.

Example generateRandomTask_example :
  let products := [{| code := "A"; stock := Just 0; rest_p := ∅ |};
                   {| code := "B"; stock := Just 2; rest_p := ∅ |};
                   {| code := "C"; stock := Null; rest_p := ∅ |}] in
  let half : Rng := λ _, {| numer := 1; gap := 0 |} in
  let nearly_one : Rng := λ _, {| numer := 9; gap := 0 |} in
  (λ t, (code (product t), quantity t)) <$> fst (generateRandomTask products zeros)
  = Some ("B", 1)
  ∧ (λ t, (code (product t), quantity t)) <$> fst (generateRandomTask products half)
    = Some ("C", 2)
  ∧ (λ t, (code (product t), quantity t))
      <$> fst (generateRandomTask products nearly_one)
    = Some ("C", 3)
  ∧ fst (generateRandomTask [{| code := "A"; stock := Just 0; rest_p := ∅ |}]
           zeros) = None.
Proof. cbv zeta. repeat split; reflexivity. Qed.

Example escapeHtml_example :
  escapeHtml (units "a < b && c > d") = units "a &lt; b &amp;&amp; c &gt; d"
  ∧ unescape (units "a &lt; b &amp;&amp; c &gt; d") = units "a < b && c > d"
  ∧ escapeHtml (units "it's") = units "it's".
Proof. repeat split; reflexivity. Qed.

(** * Further properties *)

(** ** History: best scores, migration and trimming together *)

Lemma max_number_fold (xs : list Z) (acc : number) :
  fold_left max_number xs acc = number_max acc (Math_max xs).
Proof.
  unfold Math_max. revert acc. induction xs as [|x xs IH]; intros acc; simpl.
  - now destruct acc.
  - rewrite (IH (max_number acc x)), (IH (Num x)).
    destruct acc as [|a]; simpl; [reflexivity|].
    destruct (fold_left max_number xs NegInfinity) as [|b]; simpl;
      [reflexivity|]. f_equal. lia.
Qed.

Lemma Math_max_app (xs ys : list Z) :
  Math_max (xs ++ ys) = number_max (Math_max xs) (Math_max ys).
Proof. unfold Math_max at 1. rewrite fold_left_app. apply max_number_fold. Qed.

Lemma best_of_filter_app (f : HistoryEntry → Z) (l1 l2 : list HistoryEntry) :
  (if (length (l1 ++ l2) =? 0)%nat then None
   else Some (Math_max (map f (l1 ++ l2))))
  = best_join
      (if (length l1 =? 0)%nat then None else Some (Math_max (map f l1)))
      (if (length l2 =? 0)%nat then None else Some (Math_max (map f l2))).
Proof.
  rewrite map_app, Math_max_app.
  destruct l1 as [|a l1]; [now destruct l2|].
  destruct l2 as [|b l2]; [|reflexivity].
  simpl. f_equal. unfold Math_max at 2. simpl.
  now destruct (Math_max (f a :: map f l1)).
Qed.

(** X1: the best score over two histories put together is the better of
    the two best scores; a [null] counts for nothing. *)
Theorem getBestScore_app (h1 h2 : list HistoryEntry) (uid m : string)
    (options : maybe Options) :
  getBestScore (h1 ++ h2) uid m options
  = best_join (getBestScore h1 uid m options) (getBestScore h2 uid m options).
Proof.
  unfold getBestScore. rewrite !List.filter_app.
  destruct (String.eqb m "timeAttack" && has_timeLimit options).
  - apply best_of_filter_app.
  - apply best_of_filter_app.
Qed.

Lemma filter_map_comm {A B} (f : A → B) (p : B → bool) (q : A → bool)
    (l : list A) :
  (∀ x, p (f x) = q x) →
  List.filter p (map f l) = map f (List.filter q l).
Proof.
  intros Hpq. induction l as [|a l IH]; simpl; [reflexivity|].
  rewrite Hpq. destruct (q a); simpl; now rewrite IH.
Qed.

Lemma migrateEntry_mode_eq (h : HistoryEntry) (m : string) :
  m ≠ "normal" → m ≠ "" →
  strict_eq String.eqb (mode (migrateEntry h)) (Just m)
  = strict_eq String.eqb (mode h) (Just m).
Proof.
  intros Hnormal Hempty. unfold migrateEntry. cbn [mode].
  rewrite or_str_normal.
  destruct (mode h) as [| |s]; cbn [strict_eq].
  - apply String.eqb_neq. congruence.
  - apply String.eqb_neq. congruence.
  - destruct (decide (s = "")) as [->|Hs]; [|reflexivity].
    cbn [strict_eq]. transitivity false; [|symmetry];
      apply String.eqb_neq; congruence.
Qed.

(** X2: for a mode that is neither "normal" nor empty, migrating the
    history does not change the best score. *)
Theorem getBestScore_migrateHistory (history : list HistoryEntry)
    (uid m : string) (options : maybe Options) :
  m ≠ "normal" → m ≠ "" →
  getBestScore (migrateHistory history) uid m options
  = getBestScore history uid m options.
Proof.
  intros Hnormal Hempty. unfold getBestScore, migrateHistory.
  rewrite (filter_map_comm migrateEntry _
             (λ h, String.eqb (userId h) uid
                   && strict_eq String.eqb (mode h) (Just m)))
    by (intros h; now rewrite migrateEntry_mode_eq).
  rewrite (filter_map_comm migrateEntry _
             (λ h, strict_eq Z.eqb (timeLimit h) (options_timeLimit options)))
    by reflexivity.
  rewrite !length_map, !map_map. reflexivity.
Qed.

Lemma getBestScore_migrateHistory_witness :
  let history := [entry "u1" (Just "timeAttack") 4 12 (Just 60);
                  entry "u1" Undefined 9 9 Undefined] in
  getBestScore (migrateHistory history) "u1" "timeAttack" Undefined
  = getBestScore history "u1" "timeAttack" Undefined.
Proof.
  cbv zeta.
  apply (getBestScore_migrateHistory _ "u1" "timeAttack" Undefined);
    discriminate.
Defined.

(** X3: trimming a migrated history is migrating the trimmed history. *)
Theorem trimHistory_migrateHistory (history : list HistoryEntry) :
  trimHistory (migrateHistory history) = migrateHistory (trimHistory history).
Proof.
  unfold trimHistory, migrateHistory, slice. rewrite !length_map.
  destruct (length history <=? 500)%nat; [reflexivity|].
  apply skipn_map.
Qed.

(** X4: when an entry is appended and the history trimmed, the new entry
    is the last one, after the last 499 entries of the old history (all of
    them when there are fewer). *)
Theorem trimHistory_append (history : list HistoryEntry) (h : HistoryEntry) :
  trimHistory (history ++ [h])
  = last_elements (Nat.min (length history) 499) history ++ [h].
Proof.
  unfold trimHistory. rewrite last_elements_drop, length_app. simpl.
  destruct (Nat.leb_spec (length history + 1) 500) as [Hle|Hgt].
  - rewrite Nat.min_l by lia. now rewrite Nat.sub_diag.
  - rewrite Nat.min_r by lia.
    change (-500) with (- Z.of_nat 500). rewrite slice_last by lia.
    rewrite length_app. simpl.
    rewrite drop_app_le by lia. f_equal. f_equal. lia.
Qed.

(** X5: after [migrateHistory] every entry has a mode that is not empty,
    and after [migrateProducts] every product has a number for its stock,
    which is its effective stock of before. *)
Theorem migrate_fills (history : list HistoryEntry) (products : list Product) :
  Forall (λ h, ∃ s, mode h = Just s ∧ s ≠ "") (migrateHistory history)
  ∧ Forall (λ p, ∃ n, stock p = Just n) (migrateProducts products)
  ∧ map stock (migrateProducts products)
    = map (λ p, Just (effective_stock p)) products.
Proof.
  unfold migrateHistory, migrateProducts. split; [|split].
  - apply List.Forall_map, List.Forall_forall. intros h _. simpl.
    rewrite or_str_normal. destruct (mode h) as [| |s];
      try (exists "normal"; split; [reflexivity|discriminate]).
    destruct (decide (s = "")) as [->|Hs];
      [exists "normal"; split; [reflexivity|discriminate]|].
    now exists s.
  - apply List.Forall_map, List.Forall_forall. intros p _. simpl. eauto.
  - rewrite map_map. reflexivity.
Qed.

(** ** Slip aggregation *)

(** X6: [isAllSlipsCompleted] answers [true] exactly for an array that is
    not empty and whose slips are all completed; for [null], [undefined]
    and the empty array it answers [false]. *)
Theorem isAllSlipsCompleted_true (slips : maybe (list Slip)) :
  isAllSlipsCompleted slips = true
  ↔ ∃ l, slips = Just l ∧ l ≠ []
         ∧ ∀ slip, slip ∈ l → slip_completed slip = true.
Proof.
  unfold isAllSlipsCompleted. split.
  - destruct slips as [| |l]; try discriminate.
    destruct l as [|a l]; [discriminate|]. cbn [length Nat.eqb].
    intros Hall. exists (a :: l). split; [reflexivity|]. split; [discriminate|].
    intros slip Hslip. apply list_elem_of_In in Hslip.
    now apply (proj1 (forallb_forall _ _) Hall).
  - intros (l & -> & Hne & Hall). destruct l as [|a l]; [done|].
    cbn [length Nat.eqb]. apply forallb_forall. intros slip Hslip.
    now apply Hall, list_elem_of_In.
Qed.

(** X7: in the summary of any slips, the completed tasks and the correct
    tasks are counted among all the tasks, which are the tasks of the slips
    one slip after the other: neither count exceeds the total, and the
    total is the sum of the slips' task counts. *)
Theorem getSlipsSummary_counts (slips : list Slip) :
  let s := getSlipsSummary slips in
  allTasks s = concat (map tasks slips)
  ∧ totalTasks s = foldr Nat.add 0%nat (map (λ slip, length (tasks slip)) slips)
  ∧ (completedTasks s ≤ totalTasks s)%nat
  ∧ (correctCount s ≤ totalTasks s)%nat.
Proof.
  cbv zeta. unfold getSlipsSummary.
  cbn [allTasks totalTasks completedTasks correctCount].
  split; [apply flat_map_concat_map|].
  split.
  { induction slips as [|a l IH]; [reflexivity|].
    cbn [flat_map map foldr]. now rewrite length_app, IH. }
  split; apply filter_length_le.
Qed.

(** X8: summaries add up: the summary of two runs of slips put together
    has the tasks of the first followed by those of the second, and each of
    its counts is the sum of the two counts. *)
Theorem getSlipsSummary_app (slips1 slips2 : list Slip) :
  let s := getSlipsSummary (slips1 ++ slips2) in
  let s1 := getSlipsSummary slips1 in
  let s2 := getSlipsSummary slips2 in
  allTasks s = allTasks s1 ++ allTasks s2
  ∧ totalTasks s = (totalTasks s1 + totalTasks s2)%nat
  ∧ completedTasks s = (completedTasks s1 + completedTasks s2)%nat
  ∧ correctCount s = (correctCount s1 + correctCount s2)%nat.
Proof.
  cbv zeta. unfold getSlipsSummary.
  cbn [allTasks totalTasks completedTasks correctCount].
  rewrite flat_map_app, !List.filter_app, !length_app. repeat split.
Qed.

(** ** formatDuration *)

(** X9: for a duration [ms] that is a safe integer, [formatDuration] shows
    whole seconds only when there are fewer than 60 of them (a negative
    duration included), and otherwise whole minutes, which are not split
    into hours, and the seconds that remain, from 0 to 59; the text depends
    on the whole seconds of [ms] only. *)
Theorem formatDuration_parts (ms : SafeInteger) :
  let seconds := integer ms / 1000 in
  (seconds < 60 → formatDuration ms = pretty seconds +:+ "秒")
  ∧ (60 ≤ seconds →
       ∃ m r, 0 < m ∧ 0 ≤ r < 60 ∧ 60 * m + r = seconds
              ∧ formatDuration ms = pretty m +:+ "分" +:+ pretty r +:+ "秒")
  ∧ ∀ ms' : SafeInteger,
      integer ms' / 1000 = seconds → formatDuration ms' = formatDuration ms.
Proof.
  cbv zeta. unfold formatDuration. split; [|split].
  - intros Hlt.
    destruct (Z.ltb_spec 0 (integer ms / 1000 / 60)) as [Hpos|_];
      [|reflexivity].
    exfalso. assert (integer ms / 1000 / 60 ≤ 0); [|lia].
    apply Z.lt_succ_r. apply Z.div_lt_upper_bound; lia.
  - intros Hge.
    assert (Hpos : 0 < integer ms / 1000 / 60)
      by (apply Z.div_str_pos; lia).
    apply Z.ltb_lt in Hpos as Hb. rewrite Hb.
    exists (integer ms / 1000 / 60), (Z.rem (integer ms / 1000) 60).
    rewrite Z.rem_mod_nonneg by lia.
    pose proof (Z.mod_pos_bound (integer ms / 1000) 60 ltac:(lia)).
    pose proof (Z.div_mod (integer ms / 1000) 60 ltac:(lia)).
    split; [exact Hpos|]. split; [lia|]. split; [lia|reflexivity].
  - intros ms' ->. reflexivity.
Qed.

Example formatDuration_examples :
  formatDuration (mkSafeInteger 65000 eq_refl) = "1分5秒"
  ∧ formatDuration (mkSafeInteger 45000 eq_refl) = "45秒"
  ∧ formatDuration (mkSafeInteger 59999 eq_refl) = "59秒"
  ∧ formatDuration (mkSafeInteger 3600000 eq_refl) = "60分0秒"
  ∧ formatDuration (mkSafeInteger (-1) eq_refl) = "-1秒"
  ∧ formatDuration (mkSafeInteger (2 ^ 53 - 1) eq_refl) = "150119987579分0秒".
Proof. repeat split; reflexivity. Qed.

(** ** generateTaskWithStock *)

Lemma above_zero_spec (x : option Z) :
  above_zero x = true ↔ ∃ n, x = Some n ∧ 0 < n.
Proof.
  destruct x as [n|]; simpl.
  - rewrite Z.ltb_lt. split; [eauto|]. now intros (m & [= <-] & Hm).
  - split; [discriminate|]. now intros (m & Hm & _).
Qed.

Lemma candidates_spec (products : list Product)
    (remainingStock : gmap string Z) (usedCodes : option (gset string))
    (p : Product) :
  In p (candidates products remainingStock usedCodes)
  ↔ In p products ∧ candidate remainingStock usedCodes p.
Proof.
  unfold candidates, candidate. destruct usedCodes as [used|].
  - rewrite !filter_In, above_zero_spec, negb_true_iff, bool_decide_eq_false.
    split.
    + intros [[Hp Hpos] Hused]. repeat split; try assumption.
      now intros ? [= <-].
    + intros (Hp & Hpos & Hused). repeat split; try assumption.
      now apply Hused.
  - rewrite filter_In, above_zero_spec. split.
    + intros [Hp Hpos]. repeat split; try assumption. discriminate.
    + intros (Hp & Hpos & _). now split.
Qed.

Lemma generateTaskWithStock_none (products : list Product)
    (remainingStock : gmap string Z) (usedCodes : option (gset string))
    (g : Rng) :
  candidates products remainingStock usedCodes = [] →
  generateTaskWithStock products remainingStock usedCodes g
  = (None, remainingStock, g).
Proof.
  intros Hnil. unfold generateTaskWithStock.
  change (match usedCodes with
          | Some used =>
              List.filter (λ p, negb (bool_decide (code p ∈ used)))
                (List.filter (λ p, above_zero (remaining remainingStock p))
                   products)
          | None =>
              List.filter (λ p, above_zero (remaining remainingStock p))
                products
          end) with (candidates products remainingStock usedCodes).
  now rewrite Hnil.
Qed.

Lemma generateTaskWithStock_some (products : list Product)
    (remainingStock : gmap string Z) (usedCodes : option (gset string))
    (g : Rng) :
  candidates products remainingStock usedCodes ≠ [] →
  ∃ t, fst (fst (generateTaskWithStock products remainingStock usedCodes g))
       = Some t.
Proof.
  intros Hne. unfold generateTaskWithStock.
  change (match usedCodes with
          | Some used =>
              List.filter (λ p, negb (bool_decide (code p ∈ used)))
                (List.filter (λ p, above_zero (remaining remainingStock p))
                   products)
          | None =>
              List.filter (λ p, above_zero (remaining remainingStock p))
                products
          end) with (candidates products remainingStock usedCodes).
  destruct (candidates products remainingStock usedCodes) as [|p0 rest];
    [done|].
  unfold bind. destruct (random_below _ g) as [i g1].
  destruct (random_below 3 g1) as [r g2]. simpl. eauto.
Qed.

(** X10: [generateTaskWithStock] returns [null], and leaves the ledger as
    it is, exactly when no product is a candidate: one for which the
    ledger's own entry, or without one the product's stock, is above 0 (a
    code that names an inherited member of the ledger and has no entry of
    its own gives no number), and whose code is not in [usedCodes].
    Otherwise the task is for a candidate of the list, its quantity is from
    1 to 3 and at most the stock read, and the ledger changes at the
    product's code only, where it becomes the stock less the quantity as a
    double: a number that is at least 0, and the exact difference when the
    stock is at most 2^53. *)
Theorem generateTaskWithStock_effect (products : list Product)
    (remainingStock : gmap string Z) (usedCodes : option (gset string))
    (g : Rng) :
  let r := fst (generateTaskWithStock products remainingStock usedCodes g) in
  (fst r = None
   ↔ ∀ p, p ∈ products → ¬ candidate remainingStock usedCodes p)
  ∧ (fst r = None → snd r = remainingStock)
  ∧ ∀ t, fst r = Some t →
      product t ∈ products
      ∧ candidate remainingStock usedCodes (product t)
      ∧ 1 ≤ quantity t ≤ 3
      ∧ (∃ stock,
           remaining remainingStock (product t) = Some stock
           ∧ quantity t ≤ stock
           ∧ snd r !! code (product t)
             = Some (round_double (stock - quantity t))
           ∧ 0 ≤ round_double (stock - quantity t)
           ∧ (stock ≤ 2 ^ 53 →
              round_double (stock - quantity t) = stock - quantity t))
      ∧ ∀ c, c ≠ code (product t) → snd r !! c = remainingStock !! c.
Proof.
  cbv zeta.
  pose proof (generateTaskWithStock_spec products remainingStock usedCodes g)
    as Hspec.
  destruct (decide (candidates products remainingStock usedCodes = []))
    as [Hnil|Hne].
  - rewrite generateTaskWithStock_none by exact Hnil. cbn [fst snd].
    split; [|split; [reflexivity|discriminate]].
    split; [|reflexivity]. intros _ p Hp Hcand.
    apply list_elem_of_In in Hp.
    assert (Hin : In p (candidates products remainingStock usedCodes))
      by (apply candidates_spec; now split).
    rewrite Hnil in Hin. destruct Hin.
  - destruct (generateTaskWithStock_some _ _ _ g Hne) as [t Ht].
    destruct (fst (generateTaskWithStock _ _ _ g)) as [o ledger].
    cbn [fst snd] in *. subst o.
    destruct Hspec as (Hp & Hused & n & Hrem & Hpos & Hq & Hle & ->).
    assert (Hcand : candidate remainingStock usedCodes (product t))
      by (split; [now exists n|exact Hused]).
    split; [|split; [discriminate|]].
    + split; [discriminate|]. intros Hall. exfalso.
      apply (Hall (product t)); [now apply list_elem_of_In|exact Hcand].
    + intros t' [= <-]. split; [now apply list_elem_of_In|].
      split; [exact Hcand|]. split; [exact Hq|]. split.
      * exists n. split; [exact Hrem|]. split; [exact Hle|]. split; [|split].
        -- assert (Hkey : is_Some (remainingStock !! code (product t))
                          ∨ code (product t) ≠ "__proto__").
           { unfold remaining in Hrem.
             destruct (remainingStock !! code (product t)) as [m|] eqn:Hm;
               [left; eauto|right].
             intros Hcode. rewrite Hcode in Hrem. discriminate. }
           destruct Hkey as [Hown|Hcode];
             [rewrite assign_own by exact Hown
             |rewrite assign_insert by exact Hcode];
             apply lookup_insert_eq.
        -- apply round_double_nonneg. lia.
        -- intros Hsmall. apply round_double_exact. lia.
      * intros c Hc. now apply assign_other.
Qed.

(** X12: once [generateTaskWithStock] has returned [null] for a slip, the
    further passes of the slip's loop change nothing and draw no random
    number: going on is the same as stopping. *)
Theorem slip_stops (products : list Product) (st : SlipState) (g : Rng) :
  fst (fst (generateTaskWithStock products (st_stock st)
              (Some (st_usedCodes st)) g)) = None →
  ∀ n i g', for_loop n i (λ _, slip_item products) st g' = (st, g').
Proof.
  intros Hnone.
  assert (Hnil : candidates products (st_stock st) (Some (st_usedCodes st))
                 = []).
  { destruct (decide (candidates products (st_stock st)
                        (Some (st_usedCodes st)) = [])) as [Hnil|Hne];
      [exact Hnil|].
    destruct (generateTaskWithStock_some _ _ _ g Hne) as [t Ht]. congruence. }
  induction n as [|n IH]; intros i g'; [reflexivity|].
  simpl. unfold bind at 1. unfold slip_item at 1. unfold bind at 1.
  rewrite generateTaskWithStock_none by exact Hnil. cbn [fst snd ret].
  destruct st as [ts used ledger]. apply IH.
Qed.

Lemma slip_stops_witness :
  let products := [{| code := "A"; stock := Just 1; rest_p := ∅ |}] in
  let st := {| st_tasks := []; st_usedCodes := {["A"]};
               st_stock := {["A" := 0]} |} in
  for_loop 3 0 (λ _, slip_item products) st zeros = (st, zeros).
Proof.
  cbv zeta. apply (λ H, slip_stops _ _ zeros H 3%nat 0%nat zeros).
  reflexivity.
Defined.

Lemma generateTaskWithStock_fresh_task (products : list Product)
    (remainingStock : gmap string Z) (usedCodes : option (gset string))
    (g : Rng) :
  match fst (generateTaskWithStock products remainingStock usedCodes g) with
  | (None, _) => True
  | (Some t, _) => fresh_task products t
  end.
Proof.
  pose proof (generateTaskWithStock_spec products remainingStock usedCodes g)
    as Hspec.
  assert (Hflags :
    match fst (generateTaskWithStock products remainingStock usedCodes g) with
    | (None, _) => True
    | (Some t, _) => completed t = false ∧ found t = Null
    end).
  { unfold generateTaskWithStock.
    destruct (match usedCodes with Some _ => _ | None => _ end)
      as [|p0 rest]; [exact I|].
    unfold bind. destruct (random_below _ g) as [i g1].
    destruct (random_below 3 g1) as [r g2]. now split. }
  destruct (fst (generateTaskWithStock _ _ _ g)) as [[t|] ledger];
    [|exact I].
  destruct Hspec as (Hp & _ & n & _ & _ & Hq & _). destruct Hflags as [Hc Hf].
  split; [now apply list_elem_of_In|]. now split.
Qed.

(** ** generateSlips: what holds of the tasks and of the ledger together *)

Lemma fresh_task_step (products : list Product) (ts : list Task)
    (ledger : gmap string Z) (used : gset string) (g : Rng) :
  Forall (fresh_task products) ts →
  match fst (generateTaskWithStock products ledger (Some used) g) with
  | (None, _) => Forall (fresh_task products) ts
  | (Some t, _) => Forall (fresh_task products) (ts ++ [t])
  end.
Proof.
  intros Hts.
  pose proof (generateTaskWithStock_fresh_task products ledger
                (Some used) g) as Hshape.
  destruct (fst (generateTaskWithStock _ _ _ g)) as [[t|] ledger'];
    [|exact Hts].
  apply Forall_app. split; [exact Hts|]. constructor; [exact Hshape|constructor].
Qed.

(** X13: every task of every slip that [generateSlips] returns is for a
    product of the list, has a quantity from 1 to 3, and is neither
    completed nor found. *)
Theorem generateSlips_tasks_fresh (products : list Product)
    (slipCount itemsPerSlip : nat) (g : Rng) :
  Forall (fresh_task products)
    (all_tasks (fst (generateSlips products slipCount itemsPerSlip g))).
Proof.
  rewrite generateSlips_fst.
  apply (generateSlips_inv products (λ ts _, Forall (fresh_task products) ts)).
  - intros ts ledger used g'. apply fresh_task_step.
  - constructor.
Qed.

Lemma code_inj (products : list Product) (p q : Product) :
  NoDup (map code products) → In p products → In q products →
  code p = code q → p = q.
Proof.
  induction products as [|a l IH]; intros Hnd Hp Hq Hcode; [destruct Hp|].
  simpl in Hnd. apply NoDup_cons in Hnd as [Ha Hnd].
  assert (Hnot : ∀ x, In x l → code x ≠ code a).
  { intros x Hx Heq. apply Ha. rewrite <- Heq.
    apply list_elem_of_In, in_map, Hx. }
  destruct Hp as [->|Hp], Hq as [->|Hq]; auto.
  - symmetry in Hcode. now destruct (Hnot q Hq).
  - now destruct (Hnot p Hp).
Qed.

(** X14: for products with pairwise distinct codes, the slips of
    [generateSlips] hold at most as many tasks for a product as it has
    effective stock, when that stock is at most 2^53, up to where the
    ledger's subtraction is exact, or there are at most 2^53 slips; and
    they hold none for a product whose effective stock is 0 or less. *)
Theorem generateSlips_task_count (products : list Product)
    (slipCount itemsPerSlip : nat) (g : Rng) :
  NoDup (map code products) →
  let ts := all_tasks (fst (generateSlips products slipCount itemsPerSlip g)) in
  ∀ p, p ∈ products →
    (effective_stock p ≤ 2 ^ 53 ∨ Z.of_nat slipCount ≤ 2 ^ 53 →
     Z.of_nat (length (tasks_for (code p) ts)) ≤ Z.max 0 (effective_stock p))
    ∧ (effective_stock p ≤ 0 → code p ∉ task_codes ts).
Proof.
  intros Hnd. cbv zeta. rewrite generateSlips_fst.
  assert (Hlen : length (fst (fst (generateSlips_ledger products slipCount
                                     itemsPerSlip g))) = slipCount)
    by (unfold generateSlips_ledger; now rewrite slips_loop_length).
  pose proof (tasks_for_slips) as Hcount.
  specialize (λ c, Hcount c _ (slips_distinct products slipCount itemsPerSlip g)).
  rewrite Hlen in Hcount.
  destruct (generateSlips_stock_accounted products slipCount itemsPerSlip g Hnd)
    as (Hproto & Hcons & Hnn & Hts).
  set (ts := all_tasks _) in *. clearbody ts.
  set (ledger := snd _) in *. clearbody ledger.
  intros p Hp. apply list_elem_of_In in Hp.
  assert (Hq : Forall (λ t, 1 ≤ quantity t ≤ 3) ts)
    by (eapply Forall_impl; [exact Hts|]; now intros t (_ & Hq & _)).
  assert (Hnone : effective_stock p ≤ 0 ∨ code p = "__proto__" →
                  ∀ t, In t ts → code (product t) ≠ code p).
  { intros Hcase t Ht Hcode.
    apply (proj1 (List.Forall_forall _ _) Hts) in Ht as (Hin & _ & Hpos & Hne).
    destruct Hcase as [Hstock|Hpr]; [|congruence].
    rewrite (code_inj products _ p Hnd Hin Hp Hcode) in Hpos. lia. }
  assert (Hzero : effective_stock p ≤ 0 ∨ code p = "__proto__" →
                  tasks_for (code p) ts = []).
  { intros Hcase. apply filter_nil_iff. intros t Ht.
    now apply String.eqb_neq, Hnone. }
  split.
  - intros Hcase.
    destruct (Z.le_gt_cases (effective_stock p) 0) as [Hle|Hpos];
      [rewrite Hzero by (now left); simpl; lia|].
    destruct (String.eqb_spec (code p) "__proto__") as [Hpr|Hne];
      [rewrite Hzero by (now right); simpl; lia|].
    destruct (Z.le_gt_cases (effective_stock p) (2 ^ 53)) as [Hsmall|Hbig].
    + pose proof (Hnn p Hp ltac:(lia) _ (Hcons p Hp Hne Hsmall)).
      destruct (allocated_count (code p) ts Hq) as [Hlow _]. lia.
    + destruct Hcase as [Hsmall|Hfew]; [lia|].
      specialize (Hcount (code p)). lia.
  - intros Hstock Hcode. unfold task_codes in Hcode.
    apply list_elem_of_In, in_map_iff in Hcode as (t & Hcode & Ht).
    now apply (Hnone (or_introl Hstock) t Ht).
Qed.

Lemma generateSlips_task_count_witness :
  let a := {| code := "A"; stock := Just 1; rest_p := ∅ |} in
  let b := {| code := "B"; stock := Just 0; rest_p := ∅ |} in
  let ts := all_tasks (fst (generateSlips [a; b] 3 2 zeros)) in
  (effective_stock b ≤ 2 ^ 53 ∨ Z.of_nat 3 ≤ 2 ^ 53 →
   Z.of_nat (length (tasks_for (code b) ts)) ≤ Z.max 0 (effective_stock b))
  ∧ (effective_stock b ≤ 0 → code b ∉ task_codes ts).
Proof.
  cbv zeta. apply (generateSlips_task_count _ 3 2 zeros).
  - apply (bool_decide_unpack _). vm_compute. exact I.
  - apply list_elem_of_In. simpl. tauto.
Defined.

(** ** generateSlips: the slips *)

Lemma slip_item_tasks (products : list Product) (st : SlipState) (g : Rng) :
  (length (st_tasks (fst (slip_item products st g)))
   ≤ length (st_tasks st) + 1)%nat.
Proof.
  rewrite slip_item_result. cbv zeta.
  destruct (fst (fst (generateTaskWithStock _ _ _ g))); simpl;
    [rewrite length_app; simpl|]; lia.
Qed.

Lemma slip_loop_tasks (products : list Product) :
  ∀ n i st g,
    (length (st_tasks (fst (for_loop n i (λ _, slip_item products) st g)))
     ≤ length (st_tasks st) + n)%nat.
Proof.
  induction n as [|n IH]; intros i st g; simpl; [lia|].
  unfold bind at 1. pose proof (slip_item_tasks products st g) as Hone.
  destruct (slip_item products st g) as [st' g']. cbn [fst] in Hone.
  specialize (IH (S i) st' g'). lia.
Qed.

Lemma slips_loop_shape (products : list Product) (itemsPerSlip : nat) :
  ∀ n i acc g,
    length (fst acc) = i →
    (∀ j slip, fst acc !! j = Some slip → slip_shape itemsPerSlip j slip) →
    ∀ j slip,
      fst (fst (for_loop n i (slip_body products itemsPerSlip) acc g)) !! j
      = Some slip →
      slip_shape itemsPerSlip j slip.
Proof.
  induction n as [|n IH]; intros i acc g Hlen Hacc; simpl; [exact Hacc|].
  unfold bind at 1.
  destruct (slip_body_slips products itemsPerSlip i acc g) as (st & Hst & Hloop).
  destruct (slip_body products itemsPerSlip i acc g) as [acc' g'].
  cbn [fst] in Hst. subst acc'. apply IH.
  - cbn [fst]. rewrite length_app. simpl. lia.
  - cbn [fst]. intros j slip Hj.
    apply lookup_app_Some in Hj as [Hj|[Hge Hj]]; [now apply Hacc|].
    apply list_lookup_singleton_Some in Hj as [Hj <-].
    assert (j = i) as -> by lia.
    repeat split. cbn [tasks]. subst st.
    pose proof (slip_loop_tasks products itemsPerSlip 0
                  {| st_tasks := []; st_usedCodes := ∅; st_stock := snd acc |}
                  g) as Hle.
    simpl in Hle. exact Hle.
Qed.

Lemma generateSlips_shape (products : list Product)
    (slipCount itemsPerSlip : nat) (g : Rng) (j : nat) (slip : Slip) :
  fst (generateSlips products slipCount itemsPerSlip g) !! j = Some slip →
  slip_shape itemsPerSlip j slip.
Proof.
  rewrite generateSlips_fst. unfold generateSlips_ledger.
  apply slips_loop_shape; [reflexivity|]. intros j' slip' Hj. inversion Hj.
Qed.

(** X15: the slip at index [i] of the result of [generateSlips] has the
    identifier "slip-i" and the number [i + 1], is not completed and has at
    most [itemsPerSlip] tasks; the identifiers of the slips are pairwise
    distinct. *)
Theorem generateSlips_slips (products : list Product)
    (slipCount itemsPerSlip : nat) (g : Rng) :
  let slips := fst (generateSlips products slipCount itemsPerSlip g) in
  (∀ i slip, slips !! i = Some slip → slip_shape itemsPerSlip i slip)
  ∧ NoDup (map slipId slips).
Proof.
  cbv zeta. split; [intros i slip; apply generateSlips_shape|].
  apply NoDup_alt. intros i j id Hi Hj.
  change (map slipId ?l) with (slipId <$> l) in Hi, Hj.
  rewrite list_lookup_fmap in Hi, Hj.
  destruct (_ !! i) as [si|] eqn:Hsi; [|discriminate].
  destruct (_ !! j) as [sj|] eqn:Hsj; [|discriminate].
  apply generateSlips_shape in Hsi as (Hidi & _), Hsj as (Hidj & _).
  simpl in Hi, Hj. injection Hi as Hi. injection Hj as Hj.
  rewrite Hidi in Hi. rewrite Hidj, <- Hi in Hj.
  apply String.app_inj in Hj. now apply pretty_nat_inj in Hj.
Qed.

Lemma slips_loop_extends (products : list Product) (itemsPerSlip : nat) :
  ∀ n i acc g,
    ∃ new, fst (fst (for_loop n i (slip_body products itemsPerSlip) acc g))
           = fst acc ++ new.
Proof.
  induction n as [|n IH]; intros i acc g; simpl.
  - exists []. now rewrite app_nil_r.
  - unfold bind at 1.
    destruct (slip_body_slips products itemsPerSlip i acc g) as (st & Hst & _).
    destruct (slip_body products itemsPerSlip i acc g) as [acc' g'].
    cbn [fst] in Hst. subst acc'.
    destruct (IH (S i) (fst acc ++ [{| slipId := "slip-" +:+ pretty i;
                                       slipNumber := Z.of_nat i + 1;
                                       tasks := st_tasks st;
                                       slip_completed := false |}],
                        st_stock st) g') as [new ->].
    cbn [fst]. rewrite <- app_assoc. eauto.
Qed.

(** X16: asking for more slips does not change the first ones: the first
    [k] slips of a run of [k + m] slips are the slips of the run of [k]
    slips from the same random numbers. *)
Theorem generateSlips_prefix (products : list Product)
    (k m itemsPerSlip : nat) (g : Rng) :
  take k (fst (generateSlips products (k + m) itemsPerSlip g))
  = fst (generateSlips products k itemsPerSlip g).
Proof.
  rewrite !generateSlips_fst. unfold generateSlips_ledger.
  rewrite for_loop_add.
  pose proof (slips_loop_length products itemsPerSlip k 0
                ([], initial_stock products) g) as Hlen.
  destruct (for_loop k 0 _ _ g) as [acc g']. cbn [fst] in Hlen |- *.
  destruct (slips_loop_extends products itemsPerSlip m (0 + k) acc g')
    as [new ->].
  simpl in Hlen. rewrite take_app_length'; [reflexivity|now symmetry].
Qed.

Lemma flat_map_length_le (k : nat) (slips : list Slip) :
  Forall (λ slip, (length (tasks slip) ≤ k)%nat) slips →
  (length (flat_map tasks slips) ≤ length slips * k)%nat.
Proof.
  induction 1 as [|slip slips Hslip _ IH]; simpl; [lia|].
  rewrite length_app. lia.
Qed.

(** X17: the slips that [generateSlips] has just returned are never all
    completed, and their summary counts no completed and no correct task
    and at most [slipCount * itemsPerSlip] tasks. *)
Theorem generateSlips_summary (products : list Product)
    (slipCount itemsPerSlip : nat) (g : Rng) :
  let slips := fst (generateSlips products slipCount itemsPerSlip g) in
  let s := getSlipsSummary slips in
  isAllSlipsCompleted (Just slips) = false
  ∧ completedTasks s = 0%nat
  ∧ correctCount s = 0%nat
  ∧ (totalTasks s ≤ slipCount * itemsPerSlip)%nat.
Proof.
  cbv zeta.
  assert (Hfresh : Forall (fresh_task products)
            (all_tasks (fst (generateSlips products slipCount itemsPerSlip g)))).
  { rewrite generateSlips_fst.
    apply (generateSlips_inv products
             (λ ts _, Forall (fresh_task products) ts)); [|constructor].
    intros ts ledger used g'. apply fresh_task_step. }
  pose proof (generateSlips_shape products slipCount itemsPerSlip g) as Hshape.
  assert (Hlen : length (fst (generateSlips products slipCount itemsPerSlip g))
                 = slipCount).
  { rewrite generateSlips_fst. unfold generateSlips_ledger.
    now rewrite slips_loop_length. }
  unfold all_tasks in Hfresh.
  destruct (fst (generateSlips products slipCount itemsPerSlip g))
    as [|slip slips] eqn:Hslips.
  { simpl in *. repeat split. lia. }
  split; [|split; [|split]].
  - unfold isAllSlipsCompleted. cbn [length Nat.eqb forallb].
    destruct (Hshape 0%nat slip eq_refl) as (_ & _ & -> & _). reflexivity.
  - unfold getSlipsSummary. cbn [completedTasks].
    rewrite (proj2 (filter_nil_iff _ _)); [reflexivity|].
    intros t Ht. apply (proj1 (List.Forall_forall _ _) Hfresh) in Ht.
    now destruct Ht as (_ & _ & -> & _).
  - unfold getSlipsSummary. cbn [correctCount].
    rewrite (proj2 (filter_nil_iff _ _)); [reflexivity|].
    intros t Ht. apply (proj1 (List.Forall_forall _ _) Hfresh) in Ht.
    destruct Ht as (_ & _ & _ & ->). reflexivity.
  - unfold getSlipsSummary. cbn [totalTasks]. rewrite <- Hlen.
    apply flat_map_length_le. apply Forall_lookup. intros j s Hj.
    now destruct (Hshape j s Hj) as (_ & _ & _ & Hle).
Qed.

Lemma slips_forall (products : list Product) (itemsPerSlip : nat)
    (R : SlipState → Prop) :
  (∀ ledger, R {| st_tasks := []; st_usedCodes := ∅; st_stock := ledger |}) →
  (∀ st g, R st → R (fst (slip_item products st g))) →
  ∀ slipCount g,
    Forall (λ slip, ∃ st, R st ∧ tasks slip = st_tasks st)
      (fst (generateSlips products slipCount itemsPerSlip g)).
Proof.
  intros Hinit Hstep slipCount g.
  rewrite generateSlips_fst. unfold generateSlips_ledger.
  apply (for_loop_invariant
           (λ acc : list Slip * gmap string Z,
              Forall (λ slip, ∃ st, R st ∧ tasks slip = st_tasks st)
                (fst acc))); [|constructor].
  intros i acc g' Hacc.
  destruct (slip_body_slips products itemsPerSlip i acc g') as (st & -> & Hst).
  cbn [fst]. apply Forall_app. split; [exact Hacc|].
  constructor; [|constructor]. exists st. split; [|reflexivity]. subst st.
  apply (for_loop_invariant R); [|apply Hinit].
  intros _ s g''. apply Hstep.
Qed.

(** X18: no slip has more tasks than there are products in the list. *)
Theorem generateSlips_slip_size (products : list Product)
    (slipCount itemsPerSlip : nat) (g : Rng) :
  Forall (λ slip, (length (tasks slip) ≤ length products)%nat)
    (fst (generateSlips products slipCount itemsPerSlip g)).
Proof.
  eapply Forall_impl.
  - apply (slips_forall products itemsPerSlip
             (λ st, codes_distinct st
                    ∧ Forall (λ t, In (product t) products) (st_tasks st))).
    + intros ledger. split; [|constructor].
      split; [constructor|]. intros c Hc. inversion Hc.
    + intros st g' [Hd Hin]. split; [now apply slip_item_distinct|].
      rewrite slip_item_result. cbv zeta.
      pose proof (generateTaskWithStock_spec products (st_stock st)
                    (Some (st_usedCodes st)) g') as Hspec.
      destruct (fst (generateTaskWithStock _ _ _ g')) as [[t|] ledger];
        simpl; [|exact Hin].
      apply Forall_app. split; [exact Hin|].
      constructor; [apply Hspec|constructor].
  - intros slip (st & [[Hnd _] Hin] & ->).
    rewrite <- (length_map (λ t, code (product t)) (st_tasks st)).
    rewrite <- (length_map code products).
    apply NoDup_incl_length; [apply NoDup_ListNoDup, Hnd|].
    intros c Hc. apply in_map_iff in Hc as (t & <- & Ht).
    apply in_map. now apply (proj1 (List.Forall_forall _ _) Hin).
Qed.

(** ** generateRandomTasks *)

(** X19: every task that [generateRandomTasks] returns is for a product of
    the list whose effective stock is above 0, with a quantity from 1 to 3
    that is at most that stock, and is neither completed nor found. *)
Theorem generateRandomTasks_tasks (products : list Product) (count : nat)
    (g : Rng) :
  Forall (λ t, fresh_task products t
               ∧ 0 < effective_stock (product t)
               ∧ quantity t ≤ effective_stock (product t))
    (fst (generateRandomTasks products count g)).
Proof.
  unfold generateRandomTasks.
  apply (for_loop_invariant
           (Forall (λ t, fresh_task products t
                         ∧ 0 < effective_stock (product t)
                         ∧ quantity t ≤ effective_stock (product t))));
    [|constructor].
  intros _ ts g' Hts. unfold bind.
  destruct (decide (List.filter in_stock products = [])) as [Hnil|Hne].
  - now rewrite generateRandomTask_none.
  - destruct (generateRandomTask_some products g' Hne)
      as (t & g'' & -> & Hin & (k & Hk & Hq) & Hc & Hf).
    cbn [ret fst]. apply Forall_app. split; [exact Hts|].
    constructor; [|constructor].
    apply filter_In in Hin as [Hin Hpos]. apply in_stock_spec in Hpos.
    split; [|split; [exact Hpos|lia]].
    split; [now apply list_elem_of_In|]. split; [lia|]. now split.
Qed.

(** ** Migrating the products before generating *)

Lemma fst_let_pair {A B C} (x : A * B) (f : A → C) :
  fst (let (a, b) := x in (f a, b)) = f (fst x).
Proof. now destruct x. Qed.

(** Two loops whose bodies agree through [f] agree through [f]. *)
Lemma for_loop_sim {S1 S2} (f : S1 → S2) (body1 : nat → S1 → Rand S1)
    (body2 : nat → S2 → Rand S2) :
  (∀ i s g, body2 i (f s) g = let (s', g') := body1 i s g in (f s', g')) →
  ∀ n i s g,
    for_loop n i body2 (f s) g
    = let (s', g') := for_loop n i body1 s g in (f s', g').
Proof.
  intros Hbody. induction n as [|n IH]; intros i s g; simpl; [reflexivity|].
  unfold bind. rewrite Hbody. destruct (body1 i s g) as [s1 g1]. apply IH.
Qed.

Lemma migrateProduct_stock (p : Product) :
  nullish (stock (migrateProduct p)) 99 = nullish (stock p) 99.
Proof. reflexivity. Qed.

Lemma generateRandomTask_migrate (products : list Product) (g : Rng) :
  generateRandomTask (migrateProducts products) g
  = let (t, g') := generateRandomTask products g in (migrateTask <$> t, g').
Proof.
  unfold generateRandomTask, migrateProducts.
  rewrite (filter_map_comm migrateProduct in_stock in_stock) by reflexivity.
  destruct (List.filter in_stock products) as [|p0 rest]; [reflexivity|].
  cbn [map]. change (migrateProduct p0 :: map migrateProduct rest)
    with (map migrateProduct (p0 :: rest)).
  unfold bind. rewrite length_map.
  destruct (random_below (length (p0 :: rest)) g) as [i g1].
  destruct (random_below 3 g1) as [r g2]. cbn [ret fmap option_fmap option_map].
  rewrite map_nth. reflexivity.
Qed.

(** X20: migrating the products first does not change what
    [generateRandomTasks] generates: the tasks are the same, for the
    migrated products. *)
Theorem generateRandomTasks_migrateProducts (products : list Product)
    (count : nat) (g : Rng) :
  fst (generateRandomTasks (migrateProducts products) count g)
  = map migrateTask (fst (generateRandomTasks products count g)).
Proof.
  unfold generateRandomTasks.
  pose proof (for_loop_sim (map migrateTask)
                (λ _ tasks,
                   let* task := generateRandomTask products in
                   match task with
                   | Some t => ret (tasks ++ [t])
                   | None => ret tasks
                   end)
                (λ _ tasks,
                   let* task := generateRandomTask (migrateProducts products) in
                   match task with
                   | Some t => ret (tasks ++ [t])
                   | None => ret tasks
                   end)) as Hsim.
  assert (Hsim' := λ H, Hsim H count 0%nat [] g). clear Hsim.
  change (map migrateTask []) with (@nil Task) in Hsim'.
  rewrite Hsim'; [apply fst_let_pair|].
  intros _ ts g'. unfold bind. rewrite generateRandomTask_migrate.
  destruct (generateRandomTask products g') as [[t|] g''];
    cbn [fmap option_fmap option_map ret]; [|reflexivity].
  now rewrite map_app.
Qed.

Lemma generateTaskWithStock_migrate (products : list Product)
    (remainingStock : gmap string Z) (usedCodes : option (gset string))
    (g : Rng) :
  generateTaskWithStock (migrateProducts products) remainingStock usedCodes g
  = let (r, g') :=
      generateTaskWithStock products remainingStock usedCodes g in
    (migrateTask <$> fst r, snd r, g').
Proof.
  unfold generateTaskWithStock, migrateProducts.
  rewrite (filter_map_comm migrateProduct _
             (λ p, above_zero (remaining remainingStock p))) by reflexivity.
  assert (Hav :
    match usedCodes with
    | Some used =>
        List.filter (λ p, negb (bool_decide (code p ∈ used)))
          (map migrateProduct
             (List.filter (λ p, above_zero (remaining remainingStock p)) products))
    | None =>
        map migrateProduct
          (List.filter (λ p, above_zero (remaining remainingStock p)) products)
    end
    = map migrateProduct (candidates products remainingStock usedCodes)).
  { unfold candidates. destruct usedCodes as [used|]; [|reflexivity].
    now apply filter_map_comm. }
  rewrite Hav.
  change (match usedCodes with
          | Some used =>
              List.filter (λ p, negb (bool_decide (code p ∈ used)))
                (List.filter (λ p, above_zero (remaining remainingStock p)) products)
          | None => List.filter (λ p, above_zero (remaining remainingStock p)) products
          end) with (candidates products remainingStock usedCodes).
  destruct (candidates products remainingStock usedCodes) as [|p0 rest];
    [reflexivity|].
  cbn [map]. change (migrateProduct p0 :: map migrateProduct rest)
    with (map migrateProduct (p0 :: rest)).
  unfold bind. rewrite length_map.
  destruct (random_below (length (p0 :: rest)) g) as [i g1].
  destruct (random_below 3 g1) as [r g2].
  cbn [ret fst snd fmap option_fmap option_map].
  rewrite map_nth. reflexivity.
Qed.

Lemma slip_item_migrate (products : list Product) (st : SlipState)
    (g : Rng) :
  slip_item (migrateProducts products) (migrateState st) g
  = let (st', g') := slip_item products st g in (migrateState st', g').
Proof.
  unfold slip_item, bind. cbn [migrateState st_stock st_usedCodes st_tasks].
  rewrite generateTaskWithStock_migrate.
  destruct (generateTaskWithStock products _ _ g) as [[[t|] ledger] g'];
    cbn [fst snd fmap option_fmap option_map ret]; [|reflexivity].
  unfold migrateState. cbn [st_stock st_usedCodes st_tasks].
  now rewrite map_app.
Qed.

Lemma slip_body_migrate (products : list Product) (itemsPerSlip i : nat)
    (acc : list Slip * gmap string Z) (g : Rng) :
  slip_body (migrateProducts products) itemsPerSlip i (migrateSlips acc) g
  = let (acc', g') := slip_body products itemsPerSlip i acc g in
    (migrateSlips acc', g').
Proof.
  unfold slip_body, bind. cbn [migrateSlips fst snd].
  pose proof (for_loop_sim migrateState
                (λ _, slip_item products)
                (λ _, slip_item (migrateProducts products))
                (λ _, slip_item_migrate products)
                itemsPerSlip 0%nat
                {| st_tasks := []; st_usedCodes := ∅; st_stock := snd acc |} g)
    as Hsim.
  unfold migrateState at 1 in Hsim. cbn [map st_tasks st_usedCodes st_stock] in Hsim.
  rewrite Hsim.
  destruct (for_loop itemsPerSlip 0 (λ _, slip_item products) _ g) as [st g'].
  cbn [ret]. unfold migrateSlips. cbn [fst snd migrateState st_tasks st_stock].
  now rewrite map_app.
Qed.

Lemma initial_stock_migrate (products : list Product) :
  initial_stock (migrateProducts products) = initial_stock products.
Proof.
  unfold initial_stock, migrateProducts. generalize (∅ : gmap string Z).
  induction products as [|p l IH]; intros m; [reflexivity|]. apply IH.
Qed.

(** X21: migrating the products first does not change what
    [generateSlips] generates: the slips have the same identifiers and
    numbers and the same tasks, for the migrated products. *)
Theorem generateSlips_migrateProducts (products : list Product)
    (slipCount itemsPerSlip : nat) (g : Rng) :
  fst (generateSlips (migrateProducts products) slipCount itemsPerSlip g)
  = map migrateSlip (fst (generateSlips products slipCount itemsPerSlip g)).
Proof.
  rewrite !generateSlips_fst. unfold generateSlips_ledger.
  rewrite initial_stock_migrate.
  pose proof (for_loop_sim migrateSlips
                (slip_body products itemsPerSlip)
                (slip_body (migrateProducts products) itemsPerSlip)
                (slip_body_migrate products itemsPerSlip)
                slipCount 0%nat ([], initial_stock products) g) as Hsim.
  unfold migrateSlips at 1 in Hsim. cbn [map fst snd] in Hsim.
  rewrite Hsim.
  destruct (for_loop slipCount 0 (slip_body products itemsPerSlip) _ g)
    as [acc g'].
  reflexivity.
Qed.

(** ** escapeHtml: further properties *)

Lemma unescape_escape_string (s : list N) : unescape (escape_string s) = s.
Proof.
  unfold unescape, escape_string. induction s as [|c s IH]; [reflexivity|].
  cbn [flat_map]. rewrite foldr_app, IH. apply unescape_escape_unit.
Qed.

(** X22: [escapeHtml] loses nothing: two strings with the same escaped
    text are the same string. *)
Theorem escapeHtml_inj (a b : list N) :
  escapeHtml a = escapeHtml b → a = b.
Proof.
  rewrite !escapeHtml_escape_string. intros Heq.
  rewrite <- (unescape_escape_string a), <- (unescape_escape_string b).
  now rewrite Heq.
Qed.

Lemma escapeHtml_inj_witness :
  units "a<b" = [97; 60; 98]%N.
Proof. apply (escapeHtml_inj (units "a<b") [97; 60; 98]%N). reflexivity. Defined.

Lemma escape_unit_special (c : N) :
  (is_special c = false ∧ escape_unit c = [c])
  ∨ (is_special c = true ∧ (1 < length (escape_unit c))%nat
     ∧ existsb is_special (escape_unit c) = true).
Proof.
  unfold is_special.
  destruct (escape_unit_cases c)
    as [[-> ->]|[[-> ->]|[[-> ->]|[[-> ->]|(H1 & H2 & H3 & H4 & ->)]]]];
    try (right; repeat split; simpl; lia).
  left. split; [|reflexivity].
  apply N.eqb_neq in H1, H2, H3, H4. now rewrite H1, H2, H3, H4.
Qed.

Lemma escape_string_special (s : list N) :
  (length s ≤ length (escape_string s))%nat
  ∧ existsb is_special (escape_string s) = existsb is_special s
  ∧ (existsb is_special s = true → (length s < length (escape_string s))%nat)
  ∧ (existsb is_special s = false → escape_string s = s).
Proof.
  unfold escape_string. induction s as [|c s (IHle & IHex & IHlt & IHid)];
    [repeat split; try reflexivity; discriminate|].
  cbn [flat_map existsb length]. rewrite length_app, existsb_app, IHex.
  destruct (escape_unit_special c) as [[Hc ->]|(Hc & Hlen & Hex)];
    rewrite Hc.
  - cbn [existsb length app orb]. rewrite Hc. cbn [orb].
    split; [lia|]. split; [reflexivity|].
    split; [intros H; specialize (IHlt H); lia|].
    intros H. now rewrite (IHid H).
  - rewrite Hex. cbn [orb]. split; [lia|]. split; [reflexivity|].
    split; [intros _; lia|discriminate].
Qed.

(** X23: [escapeHtml] works character by character, so it distributes
    over concatenation and never shortens; it returns its argument as it
    is exactly when the argument has none of the four characters it
    replaces, and escaping twice gives the text escaped once only in that
    case. *)
Theorem escapeHtml_special (a b : list N) :
  escapeHtml (a ++ b) = escapeHtml a ++ escapeHtml b
  ∧ (length a ≤ length (escapeHtml a))%nat
  ∧ (escapeHtml a = a ↔ existsb is_special a = false)
  ∧ (escapeHtml (escapeHtml a) = escapeHtml a ↔ existsb is_special a = false).
Proof.
  rewrite !escapeHtml_escape_string.
  destruct (escape_string_special a) as (Hle & Hex & Hlt & Hid).
  destruct (escape_string_special (escape_string a)) as (_ & _ & Hlt2 & Hid2).
  rewrite Hex in Hlt2, Hid2.
  split; [unfold escape_string; apply flat_map_app|]. split; [exact Hle|].
  split; (split; [|now auto]).
  - intros Heq. destruct (existsb is_special a); [|reflexivity].
    specialize (Hlt eq_refl). rewrite Heq in Hlt. lia.
  - intros Heq. destruct (existsb is_special a); [|reflexivity].
    specialize (Hlt2 eq_refl). rewrite Heq in Hlt2. lia.
Qed.
